(** * Todo App: the state engine, its history and its derived view

    A shallow embedding of the application script (the [StateManager]
    class, [Storage.importData] and [UI.reorderTasks]) together with the
    properties of undo/redo, of the history window, of the projection
    [filteredTasks], of the import merge and of drag-and-drop reordering.

    Conventions of the embedding.
    - JavaScript strings are [string]; [trim] and [toLowerCase] act on the
      ASCII range (white space is U+0009..U+000D and U+0020).
    - An ISO-8601 timestamp is the integer [new Date(s)] evaluates to
      (milliseconds), so [new Date(a) - new Date(b)] is a subtraction in [Z]
      and [new Date(a) > new Date(b)] a comparison in [Z].
    - The wall clock and the id generator are inputs of the calls that read
      them ([Env]); one synchronous call sees one clock reading.
    - Observers ([emit]), toasts and the debounced save do not touch the
      task state and are left out.
    - A call either returns or raises ([Completion]).
    - A task object is a record.  The methods of the state manager never
      write into a task object; [UI.reorderTasks] does, and takes as an
      argument which records held elsewhere are objects of the collection
      ([Sharing]). *)

From Stdlib Require Import List ZArith Bool String Ascii Lia Arith.
From Stdlib Require Import Sorted Permutation.
Import ListNotations.

Open Scope string_scope.
Open Scope list_scope.
Open Scope Z_scope.

(* ------------------------------------------------------------------ *)
(** ** String primitives of the host language *)

Module Str.

Definition isWhiteSpace (c : ascii) : bool :=
  let n := nat_of_ascii c in
  (Nat.eqb n 32 || (Nat.leb 9 n && Nat.leb n 13))%bool.

Fixpoint trimStart (s : string) : string :=
  match s with
  | EmptyString => EmptyString
  | String c s' => if isWhiteSpace c then trimStart s' else s
  end.

Fixpoint trimEnd (s : string) : string :=
  match s with
  | EmptyString => EmptyString
  | String c s' =>
      match trimEnd s' with
      | EmptyString => if isWhiteSpace c then EmptyString else String c EmptyString
      | r => String c r
      end
  end.

(** [s.trim()] *)
Definition trim (s : string) : string := trimEnd (trimStart s).

Definition lowerChar (c : ascii) : ascii :=
  let n := nat_of_ascii c in
  if (Nat.leb 65 n && Nat.leb n 90)%bool then ascii_of_nat (n + 32) else c.

(** [s.toLowerCase()] *)
Fixpoint toLowerCase (s : string) : string :=
  match s with
  | EmptyString => EmptyString
  | String c s' => String (lowerChar c) (toLowerCase s')
  end.

(** [h.includes(n)] *)
Fixpoint includes (h n : string) : bool :=
  if String.prefix n h then true
  else match h with
       | EmptyString => false
       | String _ h' => includes h' n
       end.

(** Truthiness of a string: [""] is the only falsy one. *)
Definition truthy (s : string) : bool := negb (String.eqb s "").

End Str.

(* ------------------------------------------------------------------ *)
(** ** Data model *)

Definition Id := string.
Definition Timestamp := Z.

(** The [priority] field: ['high'], ['medium'], ['low'] or [''] . *)
Inductive Priority := high | medium | low | noPriority.

(** [(TASK_PRIORITIES[p] || TASK_PRIORITIES.none).order] *)
Definition priorityOrder (p : Priority) : Z :=
  match p with
  | high => 3
  | medium => 2
  | low => 1
  | noPriority => 0
  end.

Record Task := mkTask {
  id : Id;
  title : string;
  notes : string;
  completed : bool;
  createdAt : Timestamp;
  updatedAt : Timestamp;
  dueAt : option Timestamp;
  priority : Priority;
  tags : list string;
  parentId : option Id;
  order : Z
}.

Inductive Filter := all | active | completedOnly.
Inductive Sort := created | due | byPriority | byTitle | manual.
Inductive Theme := light | dark | autoTheme.

(** [selectedTasks] is a [Set] of ids while the interface owns it; a
    snapshot that went through [JSON.stringify] comes back as the empty
    plain object [{}], which has no [delete] method. *)
Inductive Selection :=
| SetOf (ids : list Id)
| PlainObject.

Record State := mkState {
  tasks : list Task;
  filteredTasks : list Task;
  selectedTasks : Selection;
  currentFilter : Filter;
  currentSort : Sort;
  searchQuery : string;
  activeTagFilters : list string;
  theme : Theme;
  isLoading : bool;
  editingTask : option Task
}.

(** The object literal handed to [setState]: a key is present or not. *)
Record NewState := mkNewState {
  n_tasks : option (list Task);
  n_filteredTasks : option (list Task);
  n_selectedTasks : option Selection;
  n_currentFilter : option Filter;
  n_currentSort : option Sort;
  n_searchQuery : option string;
  n_activeTagFilters : option (list string);
  n_theme : option Theme;
  n_isLoading : option bool;
  n_editingTask : option (option Task)
}.

(** The draft [taskData] of [addTask]; an absent key is [None]. *)
Record TaskData := mkTaskData {
  d_title : string;
  d_notes : option string;
  d_dueAt : option Timestamp;
  d_priority : option Priority;
  d_tags : option (list string);
  d_parentId : option Id;
  d_order : option Z
}.

(** The [updates] object of [updateTask]: any of the keys of a task may
    be present.  The edit form sends title, notes, dueAt, priority and
    tags, and [toggleTaskComplete] sends completed; the method itself
    takes whatever object it is given. *)
Record Updates := mkUpdates {
  u_id : option Id;
  u_title : option string;
  u_notes : option string;
  u_completed : option bool;
  u_createdAt : option Timestamp;
  u_updatedAt : option Timestamp;
  u_dueAt : option (option Timestamp);
  u_priority : option Priority;
  u_tags : option (list string);
  u_parentId : option (option Id);
  u_order : option Z
}.

(** [{}] *)
Definition noUpdates : Updates :=
  mkUpdates None None None None None None None None None None None.

(** [{ completed: b }] *)
Definition completedKey (b : bool) : Updates :=
  mkUpdates None None None (Some b) None None None None None None None.

Inductive Action :=
| ADD_TASK (task : Task)
| UPDATE_TASK (taskId : Id) (updates : Updates)
| DELETE_TASK (taskId : Id)
| TOGGLE_COMPLETE (taskId : Id)
| CLEAR_COMPLETED (count : nat)
| BULK_COMPLETE (taskIds : list Id)
| BULK_DELETE (taskIds : list Id)
| BULK_SET_PRIORITY (taskIds : list Id) (p : Priority)
| UNDO
| REDO.

Record HistoryEntry := mkEntry {
  prevState : State;
  action : Action
}.

(** The fields of a [StateManager] instance that the operations read and
    write. *)
Record StateManager := mkSM {
  state : State;
  history : list HistoryEntry;
  historyIndex : Z
}.

(** What a call reads from its environment. *)
Record Env := mkEnv {
  generateId : Id;
  now : Timestamp
}.

Inductive Completion (A : Type) :=
| Returned (a : A)
| Thrown.
Arguments Returned {A} a.
Arguments Thrown {A}.

(** The state manager as its constructor builds it. *)
Definition newStateManager : StateManager :=
  mkSM (mkState [] [] (SetOf []) all created "" [] autoTheme true None) [] (-1).

(** [APP_CONFIG.historySize] *)
Definition historySize : Z := 10.

(* ------------------------------------------------------------------ *)
(** ** Array primitives of the host language *)

Module Arr.

(** [l.findIndex(p)]; [None] stands for [-1]. *)
Fixpoint findIndex {A : Type} (p : A -> bool) (l : list A) : option nat :=
  match l with
  | [] => None
  | x :: l' => if p x then Some 0%nat else option_map S (findIndex p l')
  end.

(** [l[i] = x] for an index inside the array, the only way the program
    uses it (the index always comes from [findIndex]). *)
Fixpoint assign {A : Type} (l : list A) (i : nat) (x : A) : list A :=
  match l, i with
  | [], _ => []
  | _ :: l', O => x :: l'
  | y :: l', S i' => y :: assign l' i' x
  end.

(** [l[i]] for an integer index; [None] is [undefined]. *)
Definition at_index {A : Type} (l : list A) (i : Z) : option A :=
  if i <? 0 then None else nth_error l (Z.to_nat i).

(** [l.slice(0, e)] *)
Definition slice0 {A : Type} (l : list A) (e : Z) : list A :=
  let len := Z.of_nat (List.length l) in
  let k := if e <? 0 then Z.max (len + e) 0 else Z.min e len in
  firstn (Z.to_nat k) l.

(** The position a relative [start] argument of [splice] denotes. *)
Definition relativeStart {A : Type} (l : list A) (start : Z) : nat :=
  let len := Z.of_nat (List.length l) in
  Z.to_nat (if start <? 0 then Z.max (len + start) 0 else Z.min start len).

(** [l.splice(start, 1)]: the array that is left, and the removed element
    ([None] when nothing was there). *)
Definition splice_remove {A : Type} (l : list A) (start : Z) : list A * option A :=
  let i := relativeStart l start in
  (firstn i l ++ skipn (S i) l, nth_error l i).

(** [l.splice(start, 0, x)] *)
Definition splice_insert {A : Type} (l : list A) (start : Z) (x : A) : list A :=
  let i := relativeStart l start in
  firstn i l ++ x :: skipn i l.

(** The number [findIndex] returns. *)
Definition indexNumber (o : option nat) : Z :=
  match o with
  | Some i => Z.of_nat i
  | None => -1
  end.

(** [ids.includes(x)] on an array of strings. *)
Definition includes (ids : list string) (x : string) : bool :=
  existsb (String.eqb x) ids.

(** [l.map((x, k) => f(k, x))], with the indices counted from [k]. *)
Fixpoint mapi_from {A B : Type} (f : nat -> A -> B) (k : nat) (l : list A) : list B :=
  match l with
  | [] => []
  | x :: l' => f k x :: mapi_from f (S k) l'
  end.

Definition mapi {A B : Type} (f : nat -> A -> B) (l : list A) : list B :=
  mapi_from f 0 l.

(** [l.sort(cmp)]: the sort of the language is stable; [x] goes before the
    first element it does not compare greater than. *)
Fixpoint insert_sorted {A : Type} (cmp : A -> A -> Z) (x : A) (l : list A) : list A :=
  match l with
  | [] => [x]
  | y :: l' => if cmp x y <=? 0 then x :: y :: l' else y :: insert_sorted cmp x l'
  end.

Fixpoint sort {A : Type} (cmp : A -> A -> Z) (l : list A) : list A :=
  match l with
  | [] => []
  | x :: l' => insert_sorted cmp x (sort cmp l')
  end.

End Arr.

Definition orElse {A : Type} (o : option A) (d : A) : A :=
  match o with
  | Some a => a
  | None => d
  end.

(* ------------------------------------------------------------------ *)
(** ** Storage.importData: the merge of an imported task list *)

Module Storage.

(** One round of the [forEach] over the imported tasks. *)
Definition mergeOne (mergedTasks : list Task) (importedTask : Task) : list Task :=
  match Arr.findIndex (fun t => String.eqb (id t) (id importedTask)) mergedTasks with
  | Some existingIndex =>
      match nth_error mergedTasks existingIndex with
      | Some existing =>
          if updatedAt importedTask >? updatedAt existing
          then Arr.assign mergedTasks existingIndex importedTask
          else mergedTasks
      | None => mergedTasks
      end
  | None => mergedTasks ++ [importedTask]
  end.

(** [mergedData.tasks] for [existingData.tasks = existing] and
    [importedData.tasks = imported] (an array, so the format check
    passed). *)
Definition importData (existing imported : list Task) : list Task :=
  fold_left mergeOne imported existing.

End Storage.

(* ------------------------------------------------------------------ *)
(** ** The state manager *)

Definition set_filteredTasks (s : State) (f : list Task) : State :=
  mkState (tasks s) f (selectedTasks s) (currentFilter s) (currentSort s)
          (searchQuery s) (activeTagFilters s) (theme s) (isLoading s)
          (editingTask s).

Definition set_selectedTasks (s : State) (sel : Selection) : State :=
  mkState (tasks s) (filteredTasks s) sel (currentFilter s) (currentSort s)
          (searchQuery s) (activeTagFilters s) (theme s) (isLoading s)
          (editingTask s).

(** [{ ...this.state, ...newState }] *)
Definition spread (s : State) (n : NewState) : State :=
  mkState (orElse (n_tasks n) (tasks s))
          (orElse (n_filteredTasks n) (filteredTasks s))
          (orElse (n_selectedTasks n) (selectedTasks s))
          (orElse (n_currentFilter n) (currentFilter s))
          (orElse (n_currentSort n) (currentSort s))
          (orElse (n_searchQuery n) (searchQuery s))
          (orElse (n_activeTagFilters n) (activeTagFilters s))
          (orElse (n_theme n) (theme s))
          (orElse (n_isLoading n) (isLoading s))
          (orElse (n_editingTask n) (editingTask s)).

(** A whole state used as the argument of [setState] (what [undo] does
    with a snapshot): every key is present. *)
Definition asNewState (s : State) : NewState :=
  mkNewState (Some (tasks s)) (Some (filteredTasks s)) (Some (selectedTasks s))
             (Some (currentFilter s)) (Some (currentSort s))
             (Some (searchQuery s)) (Some (activeTagFilters s))
             (Some (theme s)) (Some (isLoading s)) (Some (editingTask s)).

(** [Utils.deepClone(this.state)], a round trip through JSON: strings,
    numbers, booleans, [null] and arrays come back equal, the [Set] of
    selected ids comes back as [{}]. *)
Definition deepClone (s : State) : State := set_selectedTasks s PlainObject.

(** [{ tasks: newTasks }] *)
Definition tasksOnly (l : list Task) : NewState :=
  mkNewState (Some l) None None None None None None None None None.

(** [selectedTasks.delete(id)] *)
Definition selection_delete (sel : Selection) (i : Id) : Completion Selection :=
  match sel with
  | SetOf ids => Returned (SetOf (filter (fun x => negb (String.eqb x i)) ids))
  | PlainObject => Thrown
  end.

Definition orZero (z : Z) : Z := if z =? 0 then 0 else z.

Section Engine.

(** [a.localeCompare(b)], which depends on the locale of the host. *)
Variable localeCompare : string -> string -> Z.

(** The comparator of [sortTasks]. *)
Definition compareTasks (sortType : Sort) (a b : Task) : Z :=
  match sortType with
  | due =>
      match dueAt a, dueAt b with
      | None, None => createdAt b - createdAt a
      | None, Some _ => 1
      | Some _, None => -1
      | Some da, Some db => da - db
      end
  | byPriority =>
      let priorityDiff := priorityOrder (priority b) - priorityOrder (priority a) in
      if priorityDiff =? 0 then createdAt b - createdAt a else priorityDiff
  | byTitle => localeCompare (title a) (title b)
  | manual => orZero (order a) - orZero (order b)
  | created => createdAt b - createdAt a
  end.

Definition sortTasks (l : list Task) (sortType : Sort) : list Task :=
  Arr.sort (compareTasks sortType) l.

(** The three filters of [updateFilteredTasks], in the order applied. *)
Definition statusFilter (f : Filter) (l : list Task) : list Task :=
  match f with
  | active => filter (fun task => negb (completed task)) l
  | completedOnly => filter (fun task => completed task) l
  | all => l
  end.

Definition searchMatches (query : string) (task : Task) : bool :=
  (Str.includes (Str.toLowerCase (title task)) query
   || (Str.truthy (notes task) && Str.includes (Str.toLowerCase (notes task)) query)
   || existsb (fun tag => Str.includes (Str.toLowerCase tag) query) (tags task))%bool.

Definition searchFilter (searchQuery : string) (l : list Task) : list Task :=
  if Str.truthy (Str.trim searchQuery)
  then filter (searchMatches (Str.toLowerCase searchQuery)) l
  else l.

Definition tagMatches (filters : list string) (task : Task) : bool :=
  forallb (fun filterTag =>
             existsb (fun taskTag =>
                        String.eqb (Str.toLowerCase taskTag) (Str.toLowerCase filterTag))
                     (tags task))
          filters.

Definition tagFilter (filters : list string) (l : list Task) : list Task :=
  match filters with
  | [] => l
  | _ => filter (tagMatches filters) l
  end.

(** What [updateFilteredTasks] stores in [filteredTasks]. *)
Definition projection (s : State) : list Task :=
  sortTasks
    (tagFilter (activeTagFilters s)
       (searchFilter (searchQuery s)
          (statusFilter (currentFilter s) (tasks s))))
    (currentSort s).

Definition updateFilteredTasks (s : State) : State :=
  set_filteredTasks s (projection s).

Definition addToHistory (sm : StateManager) (prev : State) (a : Action) : StateManager :=
  let h1 :=
    if historyIndex sm <? Z.of_nat (List.length (history sm)) - 1
    then Arr.slice0 (history sm) (historyIndex sm + 1)
    else history sm in
  let h2 := h1 ++ [mkEntry prev a] in
  if Z.of_nat (List.length h2) >? historySize
  then mkSM (state sm) (tl h2) (historyIndex sm)
  else mkSM (state sm) h2 (historyIndex sm + 1).

(** The guard in front of [updateFilteredTasks] inside [setState]. *)
Definition touchesProjection (n : NewState) : bool :=
  match n_tasks n, n_currentFilter n, n_searchQuery n, n_activeTagFilters n with
  | None, None, None, None => false
  | _, _, _, _ => true
  end.

Definition setState (sm : StateManager) (n : NewState) (a : option Action) : StateManager :=
  let prev := deepClone (state sm) in
  let sm1 := mkSM (spread (state sm) n) (history sm) (historyIndex sm) in
  let sm2 :=
    match a with
    | None | Some UNDO | Some REDO => sm1
    | Some act => addToHistory sm1 prev act
    end in
  if touchesProjection n
  then mkSM (updateFilteredTasks (state sm2)) (history sm2) (historyIndex sm2)
  else sm2.

Definition undo (sm : StateManager) : StateManager * Completion bool :=
  if historyIndex sm >=? 0 then
    match Arr.at_index (history sm) (historyIndex sm) with
    | Some e =>
        (setState (mkSM (state sm) (history sm) (historyIndex sm - 1))
                  (asNewState (prevState e)) (Some UNDO),
         Returned true)
    | None => (sm, Thrown)
    end
  else (sm, Returned false).

(** [addToHistory ? { ... } : null] *)
Definition recordIf (addToHist : bool) (a : Action) : option Action :=
  if addToHist then Some a else None.

(** The object literal [task] built by [addTask]. *)
Definition newTask (sm : StateManager) (env : Env) (taskData : TaskData) : Task :=
  mkTask (generateId env)
         (Str.trim (d_title taskData))
         (match d_notes taskData with
          | Some n => if Str.truthy n then n else ""
          | None => ""
          end)
         false
         (now env)
         (now env)
         (d_dueAt taskData)
         (orElse (d_priority taskData) noPriority)
         (orElse (d_tags taskData) [])
         (match d_parentId taskData with
          | Some p => if Str.truthy p then Some p else None
          | None => None
          end)
         (match d_order taskData with
          | Some o => if o =? 0 then Z.of_nat (List.length (tasks (state sm))) else o
          | None => Z.of_nat (List.length (tasks (state sm)))
          end).

Definition addTask (sm : StateManager) (env : Env) (taskData : TaskData)
    (addToHist : bool) : StateManager * Completion Task :=
  let task := newTask sm env taskData in
  let newTasks := tasks (state sm) ++ [task] in
  (setState sm (tasksOnly newTasks) (recordIf addToHist (ADD_TASK task)),
   Returned task).

(** [{ ...task, ...updates, updatedAt: now }]: a key of [updates]
    overrides the key of the task, [id] and [createdAt] included, and the
    [updatedAt] written last overrides both. *)
Definition applyUpdates (t : Task) (u : Updates) (stamp : Timestamp) : Task :=
  mkTask (orElse (u_id u) (id t))
         (orElse (u_title u) (title t))
         (orElse (u_notes u) (notes t))
         (orElse (u_completed u) (completed t))
         (orElse (u_createdAt u) (createdAt t))
         stamp
         (orElse (u_dueAt u) (dueAt t))
         (orElse (u_priority u) (priority t))
         (orElse (u_tags u) (tags t))
         (orElse (u_parentId u) (parentId t))
         (orElse (u_order u) (order t)).

(** [updateTask]; the result [None] is the value [false].  The index
    comes from [findIndex], so the task at that index exists and the
    second [None] branch is never taken. *)
Definition updateTask (sm : StateManager) (env : Env) (taskId : Id)
    (updates : Updates) (addToHist : bool)
  : StateManager * Completion (option Task) :=
  match Arr.findIndex (fun t => String.eqb (id t) taskId) (tasks (state sm)) with
  | None => (sm, Returned None)
  | Some taskIndex =>
      match nth_error (tasks (state sm)) taskIndex with
      | None => (sm, Thrown)
      | Some old =>
          let updatedTask := applyUpdates old updates (now env) in
          let newTasks := Arr.assign (tasks (state sm)) taskIndex updatedTask in
          (setState sm (tasksOnly newTasks)
                    (recordIf addToHist (UPDATE_TASK taskId updates)),
           Returned (Some updatedTask))
      end
  end.

Definition deleteTask (sm : StateManager) (taskId : Id) (addToHist : bool)
  : StateManager * Completion unit :=
  let newTasks := filter (fun t => negb (String.eqb (id t) taskId)) (tasks (state sm)) in
  let sm1 := setState sm (tasksOnly newTasks) (recordIf addToHist (DELETE_TASK taskId)) in
  match selection_delete (selectedTasks (state sm1)) taskId with
  | Returned sel =>
      (mkSM (set_selectedTasks (state sm1) sel) (history sm1) (historyIndex sm1),
       Returned tt)
  | Thrown => (sm1, Thrown)
  end.

Definition toggleTaskComplete (sm : StateManager) (env : Env) (taskId : Id)
    (addToHist : bool) : StateManager * Completion (option Task) :=
  match find (fun t => String.eqb (id t) taskId) (tasks (state sm)) with
  | None => (sm, Returned None)
  | Some task =>
      updateTask sm env taskId
        (completedKey (negb (completed task)))
        addToHist
  end.

Definition clearCompleted (sm : StateManager) : StateManager * Completion nat :=
  let completedTasks := filter (fun t => completed t) (tasks (state sm)) in
  let newTasks := filter (fun t => negb (completed t)) (tasks (state sm)) in
  (setState sm (tasksOnly newTasks)
            (Some (CLEAR_COMPLETED (List.length completedTasks))),
   Returned (List.length completedTasks)).

Definition withCompleted (t : Task) (stamp : Timestamp) : Task :=
  mkTask (id t) (title t) (notes t) true (createdAt t) stamp (dueAt t)
         (priority t) (tags t) (parentId t) (order t).

Definition withPriority (t : Task) (p : Priority) (stamp : Timestamp) : Task :=
  mkTask (id t) (title t) (notes t) (completed t) (createdAt t) stamp (dueAt t)
         p (tags t) (parentId t) (order t).

Definition bulkComplete (sm : StateManager) (env : Env) (taskIds : list Id)
  : StateManager * Completion unit :=
  let newTasks :=
    map (fun task => if Arr.includes taskIds (id task)
                     then withCompleted task (now env) else task)
        (tasks (state sm)) in
  (setState sm (tasksOnly newTasks) (Some (BULK_COMPLETE taskIds)), Returned tt).

(** [taskIds.forEach(id => this.state.selectedTasks.delete(id))] *)
Fixpoint selection_deleteAll (sel : Selection) (taskIds : list Id) : Completion Selection :=
  match taskIds with
  | [] => Returned sel
  | i :: rest =>
      match selection_delete sel i with
      | Returned sel' => selection_deleteAll sel' rest
      | Thrown => Thrown
      end
  end.

Definition bulkDelete (sm : StateManager) (taskIds : list Id)
  : StateManager * Completion unit :=
  let newTasks := filter (fun task => negb (Arr.includes taskIds (id task)))
                         (tasks (state sm)) in
  let sm1 := setState sm (tasksOnly newTasks) (Some (BULK_DELETE taskIds)) in
  match selection_deleteAll (selectedTasks (state sm1)) taskIds with
  | Returned sel =>
      (mkSM (set_selectedTasks (state sm1) sel) (history sm1) (historyIndex sm1),
       Returned tt)
  | Thrown => (sm1, Thrown)
  end.

Definition bulkSetPriority (sm : StateManager) (env : Env) (taskIds : list Id)
    (p : Priority) : StateManager * Completion unit :=
  let newTasks :=
    map (fun task => if Arr.includes taskIds (id task)
                     then withPriority task p (now env) else task)
        (tasks (state sm)) in
  (setState sm (tasksOnly newTasks) (Some (BULK_SET_PRIORITY taskIds p)), Returned tt).

(** The task stored in an [ADD_TASK] descriptor, read as the [taskData]
    argument of [addTask]. *)
Definition taskAsData (t : Task) : TaskData :=
  mkTaskData (title t) (Some (notes t)) (dueAt t) (Some (priority t))
             (Some (tags t)) (parentId t) (Some (order t)).

Definition forget {A : Type} (r : StateManager * Completion A)
  : StateManager * Completion unit :=
  match r with
  | (sm, Returned _) => (sm, Returned tt)
  | (sm, Thrown) => (sm, Thrown)
  end.

(** The [switch] of [executeAction]: four descriptors have a case, the
    others fall through. *)
Definition executeAction (sm : StateManager) (env : Env) (a : Action)
  : StateManager * Completion unit :=
  match a with
  | ADD_TASK task => forget (addTask sm env (taskAsData task) false)
  | UPDATE_TASK taskId updates => forget (updateTask sm env taskId updates false)
  | DELETE_TASK taskId => deleteTask sm taskId false
  | TOGGLE_COMPLETE taskId => forget (toggleTaskComplete sm env taskId false)
  | _ => (sm, Returned tt)
  end.

Definition redo (sm : StateManager) (env : Env) : StateManager * Completion bool :=
  if historyIndex sm <? Z.of_nat (List.length (history sm)) - 1 then
    let sm1 := mkSM (state sm) (history sm) (historyIndex sm + 1) in
    match Arr.at_index (history sm1) (historyIndex sm1) with
    | Some e =>
        match executeAction sm1 env (action e) with
        | (sm2, Returned _) => (sm2, Returned true)
        | (sm2, Thrown) => (sm2, Thrown)
        end
    | None => (sm1, Thrown)
    end
  else (sm, Returned false).

(** *** UI.reorderTasks *)

(** The [forEach] that renumbers: [task.order = index] and a fresh
    [updatedAt], from position [index] on. *)
Fixpoint renumber (l : list Task) (index : Z) (stamp : Timestamp) : list Task :=
  match l with
  | [] => []
  | t :: l' =>
      mkTask (id t) (title t) (notes t) (completed t) (createdAt t) stamp
             (dueAt t) (priority t) (tags t) (parentId t) index
      :: renumber l' (index + 1) stamp
  end.

(** [task.order = index; task.updatedAt = ...] on one task object. *)
Definition written (t : Task) (index : Z) (stamp : Timestamp) : Task :=
  mkTask (id t) (title t) (notes t) (completed t) (createdAt t) stamp
         (dueAt t) (priority t) (tags t) (parentId t) index.

(** The two [splice] calls on an array: the element at [draggedIndex]
    goes out and comes back in at [newIndex]. *)
Definition moveTo {A : Type} (l : list A) (draggedIndex newIndex : Z) : list A :=
  match Arr.splice_remove l draggedIndex with
  | (rest, Some removed) => Arr.splice_insert rest newIndex removed
  | (rest, None) => rest
  end.

(** Task objects are shared.  [addTask] puts the object it appends into
    its [ADD_TASK] descriptor as well; [undo] hands the arrays of the
    snapshot to the state, so that the collection then consists of the
    snapshot's own objects; the edit dialog keeps the object it was opened
    on in [editingTask].  Every method of the state manager builds new
    task objects and new arrays and leaves the old ones as they are, which
    is why a record can stand for an object there.  The [forEach] of
    [reorderTasks] is the one place that writes into task objects: it
    writes into the objects of the collection, and the writes show
    wherever else such an object is held.

    A [Holder] is a place outside [state.tasks] that holds a task object;
    [entry] is an index into [history] and [k] an index into an array of
    the snapshot of that entry. *)
Inductive Holder :=
| EditingTask                       (* state.editingTask *)
| Descriptor (entry : nat)          (* history[entry].action.task *)
| SnapshotTask (entry k : nat)      (* history[entry].prevState.tasks[k] *)
| SnapshotView (entry k : nat)      (* history[entry].prevState.filteredTasks[k] *)
| SnapshotEditing (entry : nat).    (* history[entry].prevState.editingTask *)

(** The sharing at the time of a call: for each holder, the index in
    [state.tasks] of the object it holds, if that object is one of the
    collection.  Records carry no identity, so [reorderTasks] takes the
    sharing as an argument, the way it takes the clock. *)
Definition Sharing := Holder -> option nat.

(** What a holder reads after the [forEach].  [places] lists, for each
    index of the reordered array, the index its object had in
    [state.tasks]; a holder of the object that stood at [p] sees the
    [order] and the [updatedAt] written at its new index. *)
Definition seen (shared : Sharing) (places : list nat) (stamp : Timestamp)
    (h : Holder) (t : Task) : Task :=
  match shared h with
  | Some p =>
      match Arr.findIndex (Nat.eqb p) places with
      | Some index => written t (Z.of_nat index) stamp
      | None => t
      end
  | None => t
  end.

(** The holders of a history entry, read through [see]. *)
Definition seenState (see : Holder -> Task -> Task) (entry : nat) (s : State) : State :=
  mkState (Arr.mapi (fun k => see (SnapshotTask entry k)) (tasks s))
          (Arr.mapi (fun k => see (SnapshotView entry k)) (filteredTasks s))
          (selectedTasks s) (currentFilter s) (currentSort s)
          (searchQuery s) (activeTagFilters s) (theme s) (isLoading s)
          (option_map (see (SnapshotEditing entry)) (editingTask s)).

Definition seenAction (see : Holder -> Task -> Task) (entry : nat) (a : Action) : Action :=
  match a with
  | ADD_TASK task => ADD_TASK (see (Descriptor entry) task)
  | _ => a
  end.

Definition seenEntry (see : Holder -> Task -> Task) (entry : nat) (e : HistoryEntry)
  : HistoryEntry :=
  mkEntry (seenState see entry (prevState e)) (seenAction see entry (action e)).

(** The state manager once the [forEach] has run, before [setState]:
    the log and [editingTask] as their holders now read.  ([state.tasks]
    and [filteredTasks] hold the written objects too; the [setState] that
    follows replaces both.) *)
Definition afterWrites (sm : StateManager) (see : Holder -> Task -> Task) : StateManager :=
  mkSM (mkState (tasks (state sm)) (filteredTasks (state sm))
                (selectedTasks (state sm)) (currentFilter (state sm))
                (currentSort (state sm)) (searchQuery (state sm))
                (activeTagFilters (state sm)) (theme (state sm))
                (isLoading (state sm))
                (option_map (see EditingTask) (editingTask (state sm))))
       (Arr.mapi (seenEntry see) (history sm))
       (historyIndex sm).

(** [insertAfter] is what the drop handler computes from the pointer
    position ([event.clientY > midY]).  The [forEach] writes [order] and
    [updatedAt] into the task objects themselves, so the writes reach the
    holders named by [shared] as well as the reordered array handed to
    [setState].  With an empty task list nothing is removed and the
    renumbering raises on [undefined] before any write. *)
Definition reorderTasks (sm : StateManager) (env : Env) (shared : Sharing)
    (draggedTask targetTask : Task) (insertAfter : bool)
  : StateManager * Completion unit :=
  let allTasks := tasks (state sm) in
  let draggedIndex :=
    Arr.indexNumber (Arr.findIndex (fun t => String.eqb (id t) (id draggedTask)) allTasks) in
  let targetIndex :=
    Arr.indexNumber (Arr.findIndex (fun t => String.eqb (id t) (id targetTask)) allTasks) in
  match Arr.splice_remove allTasks draggedIndex with
  | (rest, Some removed) =>
      let newIndex := if insertAfter then targetIndex else targetIndex in
      let moved := Arr.splice_insert rest newIndex removed in
      let places := moveTo (seq 0 (List.length allTasks)) draggedIndex newIndex in
      let sm1 := afterWrites sm (seen shared places (now env)) in
      (setState sm1 (tasksOnly (renumber moved 0 (now env))) None, Returned tt)
  | (_, None) => (sm, Thrown)
  end.

(** *** The commands of the interface

    Every call that can leave an entry in the history, as the interface
    issues it (with recording on). *)
Inductive Command :=
| AddTask (taskData : TaskData)
| UpdateTask (taskId : Id) (updates : Updates)
| DeleteTask (taskId : Id)
| ToggleComplete (taskId : Id)
| ClearCompleted
| BulkComplete (taskIds : list Id)
| BulkDelete (taskIds : list Id)
| BulkSetPriority (taskIds : list Id) (p : Priority).

Definition run (sm : StateManager) (env : Env) (c : Command)
  : StateManager * Completion unit :=
  match c with
  | AddTask taskData => forget (addTask sm env taskData true)
  | UpdateTask taskId updates => forget (updateTask sm env taskId updates true)
  | DeleteTask taskId => deleteTask sm taskId true
  | ToggleComplete taskId => forget (toggleTaskComplete sm env taskId true)
  | ClearCompleted => forget (clearCompleted sm)
  | BulkComplete taskIds => bulkComplete sm env taskIds
  | BulkDelete taskIds => bulkDelete sm taskIds
  | BulkSetPriority taskIds p => bulkSetPriority sm env taskIds p
  end.

(** Whether the task collection holds a task with this id. *)
Definition hasTask (s : State) (taskId : Id) : bool :=
  existsb (fun t => String.eqb (id t) taskId) (tasks s).

(** A command is recorded unless it is an update or a toggle of an id
    that is not there. *)
Definition isRecorded (sm : StateManager) (c : Command) : bool :=
  match c with
  | UpdateTask taskId _ | ToggleComplete taskId => hasTask (state sm) taskId
  | _ => true
  end.

(** The commands whose descriptor has a case in [executeAction]. *)
Definition hasReplayCase (c : Command) : bool :=
  match c with
  | AddTask _ | UpdateTask _ _ | DeleteTask _ | ToggleComplete _ => true
  | _ => false
  end.

(** The descriptor a recorded command leaves in the history.  A toggle
    goes through [updateTask] and is recorded as an [UPDATE_TASK] of the
    [completed] key. *)
Definition descriptor (sm : StateManager) (env : Env) (c : Command) : Action :=
  match c with
  | AddTask taskData => ADD_TASK (newTask sm env taskData)
  | UpdateTask taskId updates => UPDATE_TASK taskId updates
  | DeleteTask taskId => DELETE_TASK taskId
  | ToggleComplete taskId =>
      match find (fun t => String.eqb (id t) taskId) (tasks (state sm)) with
      | Some task =>
          UPDATE_TASK taskId
            (completedKey (negb (completed task)))
      | None => TOGGLE_COMPLETE taskId
      end
  | ClearCompleted =>
      CLEAR_COMPLETED (List.length (filter (fun t => completed t) (tasks (state sm))))
  | BulkComplete taskIds => BULK_COMPLETE taskIds
  | BulkDelete taskIds => BULK_DELETE taskIds
  | BulkSetPriority taskIds p => BULK_SET_PRIORITY taskIds p
  end.

(** What the interface can do to the state manager: issue a command,
    undo, redo, call [setState] without a descriptor (search box, filter
    tabs, sort selector, selection, theme), or drop a dragged task. *)
Inductive Event :=
| DoCommand (env : Env) (c : Command)
| DoUndo
| DoRedo (env : Env)
| DoSetState (n : NewState)
| DoReorder (env : Env) (shared : Sharing) (draggedTask targetTask : Task)
            (insertAfter : bool).

Definition perform (sm : StateManager) (e : Event) : StateManager :=
  match e with
  | DoCommand env c => fst (run sm env c)
  | DoUndo => fst (undo sm)
  | DoRedo env => fst (redo sm env)
  | DoSetState n => setState sm n None
  | DoReorder env shared draggedTask targetTask insertAfter =>
      fst (reorderTasks sm env shared draggedTask targetTask insertAfter)
  end.

(** The state manager after a session of events. *)
Definition session (events : list Event) : StateManager :=
  fold_left perform events newStateManager.

(** [n] consecutive calls of [undo], keeping the state manager. *)
Definition undoMany (n : nat) (sm : StateManager) : StateManager :=
  Nat.iter n (fun s => fst (undo s)) sm.

(** A sequence of recorded [setState] calls. *)
Definition recordAll (sm : StateManager) (steps : list (NewState * Action)) : StateManager :=
  fold_left (fun s step => setState s (fst step) (Some (snd step))) steps sm.

End Engine.

Definition isRecordable (a : Action) : bool :=
  match a with
  | UNDO | REDO => false
  | _ => true
  end.

(** The position counter points into the log, or just before it. *)
Definition historyInRange (sm : StateManager) : Prop :=
  -1 <= historyIndex sm < Z.of_nat (List.length (history sm)).

Definition logInvariant (sm : StateManager) : Prop :=
  historyInRange sm /\ Z.of_nat (List.length (history sm)) <= historySize.

(** The state with the selection left out of the comparison. *)
Definition observable (s : State) : State := set_selectedTasks s PlainObject.

(** The entries [addToHistory] keeps before it appends. *)
Definition kept (sm : StateManager) : list HistoryEntry :=
  firstn (Z.to_nat (historyIndex sm + 1)) (history sm).

(** The log of a state manager: its entries and its position counter. *)
Definition logOf (sm : StateManager) : list HistoryEntry * Z :=
  (history sm, historyIndex sm).

(** The task record a holder reads in a state manager, if it holds one. *)
Definition held (sm : StateManager) (h : Holder) : option Task :=
  match h with
  | EditingTask => editingTask (state sm)
  | Descriptor entry =>
      match nth_error (history sm) entry with
      | Some e =>
          match action e with
          | ADD_TASK task => Some task
          | _ => None
          end
      | None => None
      end
  | SnapshotTask entry k =>
      match nth_error (history sm) entry with
      | Some e => nth_error (tasks (prevState e)) k
      | None => None
      end
  | SnapshotView entry k =>
      match nth_error (history sm) entry with
      | Some e => nth_error (filteredTasks (prevState e)) k
      | None => None
      end
  | SnapshotEditing entry =>
      match nth_error (history sm) entry with
      | Some e => editingTask (prevState e)
      | None => None
      end
  end.

(** The state as its inputs: the selection and the derived view left
    out. *)
Definition settings (s : State) : State :=
  set_filteredTasks (set_selectedTasks s PlainObject) [].

(** [n] occurs inside [h]. *)
Definition isSubstring (n h : string) : Prop :=
  exists p s, h = String.append p (String.append n s).

(** The query occurs, case folded, in the title, in the notes or in a
    tag of the task. *)
Definition containsQuery (query : string) (t : Task) : Prop :=
  isSubstring query (Str.toLowerCase (title t)) \/
  isSubstring query (Str.toLowerCase (notes t)) \/
  exists tag, In tag (tags t) /\ isSubstring query (Str.toLowerCase tag).

(** The replacement [mergeOne] performs on a local task with the id of
    the imported one. *)
Definition replaced (i x : Task) : Task :=
  if String.eqb (id x) (id i)
  then (if updatedAt i >? updatedAt x then i else x)
  else x.

(** Last write wins, read off the two collections: what becomes of a
    local task, and which imported tasks are new. *)
Definition resolved (imported : list Task) (x : Task) : Task :=
  match find (fun i => String.eqb (id i) (id x)) imported with
  | Some i => if updatedAt i >? updatedAt x then i else x
  | None => x
  end.

Definition isNew (existing : list Task) (i : Task) : bool :=
  negb (existsb (fun x => String.eqb (id x) (id i)) existing).

Definition mergedSpec (existing imported : list Task) : list Task :=
  map (resolved imported) existing ++ filter (isNew existing) imported.


(** The round trip through undo and redo, read literally: after a
    command, [undo] gives back the tasks and settings of the state before
    it, and [redo] those of the state after it. *)
Definition roundTrips (lc : string -> string -> Z) (sm : StateManager)
    (env : Env) (c : Command) (env' : Env) : Prop :=
  let sm1 := fst (run lc sm env c) in
  let sm2 := fst (undo lc sm1) in
  let sm3 := fst (redo lc sm2 env') in
  snd (undo lc sm1) = Returned true /\
  settings (state sm2) = settings (state sm) /\
  settings (state sm3) = settings (state sm1).

(* ------------------------------------------------------------------ *)
(** ** Concrete states used in the examples *)

Module Sample.

(** A collation: code-unit order. *)
Definition codeUnitCompare (a b : string) : Z :=
  match String.compare a b with
  | Lt => -1
  | Eq => 0
  | Gt => 1
  end.

Definition draft (t : string) : TaskData :=
  mkTaskData t None None None None None None.

Definition at_ (i : Id) (stamp : Timestamp) : Env := mkEnv i stamp.

Definition exec (sm : StateManager) (env : Env) (c : Command) : StateManager :=
  fst (run codeUnitCompare sm env c).

(** One task ["a"], then two, then three, added at times 100, 200, 300. *)
Definition oneTask : StateManager :=
  exec newStateManager (at_ "a" 100) (AddTask (draft "milk")).

Definition twoTasks : StateManager :=
  exec oneTask (at_ "b" 200) (AddTask (draft "bread")).

Definition threeTasks : StateManager :=
  exec twoTasks (at_ "c" 300) (AddTask (draft "eggs")).

Definition taskWithId (sm : StateManager) (i : Id) : Task :=
  orElse (find (fun t => String.eqb (id t) i) (tasks (state sm)))
         (mkTask i "" "" false 0 0 None noPriority [] None 0).

(** Only the sort key changes, as the sort selector does. *)
Definition sortOnly (k : Sort) : NewState :=
  mkNewState None None None None (Some k) None None None None None.

(** Eleven deletions of ids that are not there, each one recorded. *)
Definition ghosts : list Id :=
  ["g1"; "g2"; "g3"; "g4"; "g5"; "g6"; "g7"; "g8"; "g9"; "g10"; "g11"].

Definition elevenSteps : list (NewState * Action) :=
  map (fun i => (tasksOnly [], DELETE_TASK i)) ghosts.

(** A history that holds [historySize] entries: ten recorded deletions. *)
Definition fullHistory : StateManager :=
  fold_left (fun sm i => exec sm (at_ "" 0) (DeleteTask i)) (firstn 10 ghosts) oneTask.

Definition localA : Task :=
  mkTask "a" "local" "" false 1 5 None noPriority [] None 0.

Definition importedA : Task :=
  mkTask "a" "imported" "" false 1 5 None noPriority [] None 0.

Definition newerA : Task :=
  mkTask "a" "newer" "" false 1 9 None noPriority [] None 0.

Definition importedB : Task :=
  mkTask "b" "other" "" false 2 2 None noPriority [] None 0.

Definition retitle : Updates :=
  mkUpdates None (Some "oat milk") None None None None None None None None None.

(** The sharing in a state manager built by recorded [addTask] calls
    only, such as [threeTasks]: the descriptor of entry [k] holds the
    object that its call appended, which still stands at index [k]; the
    snapshots are copies. *)
Definition addedObjects (n : nat) : Sharing :=
  fun h =>
    match h with
    | Descriptor entry => if (entry <? n)%nat then Some entry else None
    | _ => None
    end.

(** The sharing right after an [undo] of entry [entry]: the collection
    is the array of that entry's snapshot. *)
Definition restoredObjects (entry : nat) : Sharing :=
  fun h =>
    match h with
    | SnapshotTask e k => if (e =? entry)%nat then Some k else None
    | _ => None
    end.

(** [{ id: 'z', createdAt: ... }]: an update that carries the two keys. *)
Definition rekey : Updates :=
  mkUpdates (Some "z") None None None (Some 7) None None None None None None.

End Sample.

(* ------------------------------------------------------------------ *)
(** ** More of the application script *)

(** [tagSet.add(tag)]: a [Set] keeps the first occurrence, in insertion
    order. *)
Definition setAdd (s : list string) (x : string) : list string :=
  if Arr.includes s x then s else s ++ [x].

(** The order of [sort()] without a comparator: strings by code units. *)
Definition defaultCompare (a b : string) : Z :=
  match String.compare a b with
  | Lt => -1
  | Eq => 0
  | Gt => 1
  end.

(** [StateManager.getAllTags] *)
Definition getAllTags (s : State) : list string :=
  Arr.sort defaultCompare
    (fold_left (fun tagSet task => fold_left setAdd (tags task) tagSet)
               (tasks s) []).

(** All three filters of the projection, as one test on a task. *)
Definition passesFilters (s : State) (t : Task) : bool :=
  (match currentFilter s with
   | active => negb (completed t)
   | completedOnly => completed t
   | all => true
   end
   && (if Str.truthy (Str.trim (searchQuery s))
       then searchMatches (Str.toLowerCase (searchQuery s)) t
       else true)
   && tagMatches (activeTagFilters s) t)%bool.

(** The entries at or before the position counter, oldest first: what
    [undo] can still reach. *)
Definition undoable (sm : StateManager) : list HistoryEntry := kept sm.

(** The last [n] elements of a list. *)
Definition lastn {A : Type} (n : nat) (l : list A) : list A :=
  skipn (List.length l - n) l.

Module UI.

Definition comma : ascii := ascii_of_nat 44.

(** [s.split(',')] *)
Fixpoint split (s : string) : list string :=
  match s with
  | EmptyString => [EmptyString]
  | String c s' =>
      if Ascii.eqb c comma then EmptyString :: split s'
      else match split s' with
           | piece :: rest => String c piece :: rest
           | [] => [String c EmptyString]
           end
  end.

(** [text.split(',').map(tag => tag.trim()).filter(tag => tag)], the tag
    list of the add form and of the edit form. *)
Definition parseTags (text : string) : list string :=
  filter Str.truthy (map Str.trim (split text)).

(** [handleAddTask].  The arguments are the values of the form: the
    title field, the due date that the handler settles on (the date field
    or the date found in the title), the priority selector and the tags
    field.  The result [None] is the early [return] on a blank title. *)
Definition handleAddTask (lc : string -> string -> Z) (sm : StateManager)
    (env : Env) (titleInput : string) (finalDueDate : option Timestamp)
    (prioritySelect : Priority) (tagsInput : string)
  : StateManager * option Task :=
  let title := Str.trim titleInput in
  if negb (Str.truthy title) then (sm, None)
  else
    let tagsText := Str.trim tagsInput in
    let tags := if Str.truthy tagsText then parseTags tagsText else [] in
    match addTask lc sm env
            (mkTaskData title None finalDueDate (Some prioritySelect) (Some tags)
                        None None)
            true with
    | (sm', Returned task) => (sm', Some task)
    | (sm', Thrown) => (sm', None)
    end.

(** [(targetDay - currentDay + 7) % 7 || 7] of [parseNaturalDate]: the
    number of days from today to the weekday named in the text. *)
Definition daysUntilTarget (targetDay currentDay : Z) : Z :=
  let r := Z.rem (targetDay - currentDay + 7) 7 in
  if r =? 0 then 7 else r.

(** [{ activeTagFilters: filters }] *)
Definition tagFiltersOnly (filters : list string) : NewState :=
  mkNewState None None None None None None (Some filters) None None None.

Definition addTagFilter (lc : string -> string -> Z) (sm : StateManager)
    (tag : string) : StateManager :=
  let currentFilters := activeTagFilters (state sm) in
  if Arr.includes currentFilters tag then sm
  else setState lc sm (tagFiltersOnly (currentFilters ++ [tag])) None.

Definition removeTagFilter (lc : string -> string -> Z) (sm : StateManager)
    (tag : string) : StateManager :=
  let currentFilters :=
    filter (fun t => negb (String.eqb t tag)) (activeTagFilters (state sm)) in
  setState lc sm (tagFiltersOnly currentFilters) None.

End UI.

(* ------------------------------------------------------------------ *)
(** ** The service worker: routing and cache housekeeping

    A cache is the list of its request keys, oldest first, as
    [cache.keys()] returns them; the cache storage is the list of the
    cache names. *)

Module ServiceWorker.

Definition CACHE_NAME : string := "todo-app-v1.0.0".
Definition STATIC_CACHE_NAME : string := String.append CACHE_NAME "-static".
Definition DYNAMIC_CACHE_NAME : string := String.append CACHE_NAME "-dynamic".

Definition STATIC_FILES : list string :=
  ["/"; "/index.html"; "/styles.css"; "/app.js"; "/manifest.json"].

Definition MAX_DYNAMIC_CACHE_SIZE : Z := 50.

(** [s.startsWith(p)] *)
Definition startsWith (s p : string) : bool := String.prefix p s.

(** [s.endsWith(suffix)] *)
Fixpoint endsWith (s suffix : string) : bool :=
  if String.eqb s suffix then true
  else match s with
       | EmptyString => false
       | String _ s' => endsWith s' suffix
       end.

Inductive Strategy := CacheFirst | NetworkFirst | StaleWhileRevalidate.

(** The [fetch] listener: which strategy answers a request; [None] when
    the listener returns without [respondWith]. *)
Definition route (method url : string) : option Strategy :=
  if negb (String.eqb method "GET") then None
  else if negb (startsWith url "http") then None
  else if existsb (fun file => (endsWith url file || Str.includes url file)%bool)
                  STATIC_FILES
       then Some CacheFirst
  else if (Str.includes url "api/" || Str.includes url ".json")%bool
       then Some NetworkFirst
  else Some StaleWhileRevalidate.

(** [cache.delete(key)] *)
Definition cacheDelete (cache : list string) (key : string) : list string :=
  filter (fun k => negb (String.eqb k key)) cache.

(** [limitCacheSize], one call run to its end on the cache it opened. *)
Definition limitCacheSize (cache : list string) (maxSize : Z) : list string :=
  let keys := cache in
  if Z.of_nat (List.length keys) >? maxSize then
    let keysToDelete := Arr.slice0 keys (Z.of_nat (List.length keys) - maxSize) in
    fold_left cacheDelete keysToDelete cache
  else cache.

(** [cleanupOldCaches]: the cache names left in the storage. *)
Definition cleanupOldCaches (cacheNames : list string) (currentCacheName : string)
  : list string :=
  filter (fun cacheName =>
            negb (startsWith cacheName "todo-app-"
                  && negb (String.eqb cacheName currentCacheName)))
         cacheNames.

End ServiceWorker.

(** The order of the view in the terms of each sort key: [a] may stand
    before [b]. *)
Definition shownBefore (lc : string -> string -> Z) (k : Sort) (a b : Task) : Prop :=
  match k with
  | created => createdAt a >= createdAt b
  | due =>
      match dueAt a, dueAt b with
      | Some da, Some db => da <= db
      | Some _, None => True
      | None, Some _ => False
      | None, None => createdAt a >= createdAt b
      end
  | byPriority =>
      priorityOrder (priority a) > priorityOrder (priority b) \/
      (priorityOrder (priority a) = priorityOrder (priority b) /\
       createdAt a >= createdAt b)
  | byTitle => lc (title a) (title b) <= 0
  | manual => order a <= order b
  end.

(** More concrete states. *)
Module MoreSample.

(** Two tasks, shown by title. *)
Definition byTitleState : State :=
  state (setState Sample.codeUnitCompare Sample.twoTasks (Sample.sortOnly byTitle) None).

Definition threeKeys : list string := ["k1"; "k2"; "k3"].

End MoreSample.

(* ------------------------------------------------------------------ *)
(** ** Facts about the string primitives *)

Module StrFacts.

Lemma prefix_append (n h : string) :
  String.prefix n h = true <-> exists s, h = String.append n s.
Proof.
  revert h; induction n as [|c n IH]; intros h.
  - split; [intros _; exists h; reflexivity | intros _; now destruct h].
  - destruct h as [|d h]; simpl.
    + split; [discriminate | intros [s Hs]; discriminate].
    + destruct (Ascii.ascii_dec c d) as [->|Hne].
      * rewrite IH. split; intros [s Hs]; exists s.
        -- now rewrite Hs.
        -- now inversion Hs.
      * split; [discriminate | intros [s Hs]; inversion Hs; congruence].
Qed.

Lemma includes_substring (h n : string) :
  Str.includes h n = true <-> isSubstring n h.
Proof.
  unfold isSubstring. induction h as [|c h IH].
  - change (Str.includes "" n) with (if String.prefix n "" then true else false).
    destruct (String.prefix n "") eqn:E.
    + apply prefix_append in E. destruct E as [s Hs].
      split; [intros _; exists "", s; exact Hs | reflexivity].
    + split; [discriminate|].
      intros [p [s Hs]]. destruct p; simpl in Hs.
      * assert (String.prefix n "" = true) by (apply prefix_append; eauto).
        congruence.
      * discriminate.
  - change (Str.includes (String c h) n)
      with (if String.prefix n (String c h) then true else Str.includes h n).
    destruct (String.prefix n (String c h)) eqn:E.
    + apply prefix_append in E. destruct E as [s Hs].
      split; [intros _; exists "", s; exact Hs | reflexivity].
    + rewrite IH. split.
      * intros [p [s Hs]]. exists (String c p), s. simpl. now rewrite Hs.
      * intros [p [s Hs]]. destruct p as [|d p]; simpl in Hs.
        -- assert (String.prefix n (String c h) = true)
             by (apply prefix_append; eauto).
           congruence.
        -- inversion Hs. eauto.
Qed.

Lemma truthy_spec (s : string) : Str.truthy s = true <-> s <> "".
Proof.
  unfold Str.truthy. destruct (String.eqb_spec s ""); simpl; split; congruence.
Qed.

Lemma or_empty (s : string) : (if Str.truthy s then s else "") = s.
Proof.
  unfold Str.truthy. now destruct (String.eqb_spec s "") as [->|]; simpl.
Qed.

(** A string that does not start with white space keeps its head under
    [trimEnd]. *)
Lemma trimEnd_head (c : ascii) (s : string) :
  Str.isWhiteSpace c = false -> exists r, Str.trimEnd (String c s) = String c r.
Proof.
  intros Hc. simpl. destruct (Str.trimEnd s).
  - rewrite Hc. eauto.
  - eauto.
Qed.

Lemma trimEnd_idem (s : string) : Str.trimEnd (Str.trimEnd s) = Str.trimEnd s.
Proof.
  induction s as [|c s IH]; simpl; [reflexivity|].
  destruct (Str.trimEnd s) as [|d r] eqn:E.
  - destruct (Str.isWhiteSpace c) eqn:Hc; simpl; [reflexivity|].
    now rewrite Hc.
  - simpl in *. now rewrite IH.
Qed.

Lemma trimStart_shape (s : string) :
  Str.trimStart s = "" \/
  exists c r, Str.trimStart s = String c r /\ Str.isWhiteSpace c = false.
Proof.
  induction s as [|c s IH]; simpl; [now left|].
  destruct (Str.isWhiteSpace c) eqn:Hc; [exact IH|].
  right. eauto.
Qed.

(** [trim] is idempotent: a trimmed title trims to itself. *)
Lemma trim_idem (s : string) : Str.trim (Str.trim s) = Str.trim s.
Proof.
  unfold Str.trim.
  destruct (trimStart_shape s) as [->|[c [r [-> Hc]]]]; [reflexivity|].
  destruct (trimEnd_head c r Hc) as [r' Hr]. rewrite Hr.
  simpl Str.trimStart. rewrite Hc. rewrite <- Hr. apply trimEnd_idem.
Qed.

End StrFacts.

(* ------------------------------------------------------------------ *)
(** ** Facts about the array primitives *)

Module ArrFacts.

Lemma findIndex_Some {A : Type} (p : A -> bool) (l : list A) (i : nat) :
  Arr.findIndex p l = Some i ->
  exists x, nth_error l i = Some x /\ p x = true.
Proof.
  revert i. induction l as [|y l IH]; intros i; simpl; [discriminate|].
  destruct (p y) eqn:Hy.
  - intros [= <-]. exists y. auto.
  - destruct (Arr.findIndex p l) as [k|]; simpl; [|discriminate].
    intros [= <-]. simpl. now apply IH.
Qed.

Lemma findIndex_None {A : Type} (p : A -> bool) (l : list A) :
  Arr.findIndex p l = None <-> existsb p l = false.
Proof.
  induction l as [|y l IH]; simpl; [tauto|].
  destruct (p y); simpl.
  - split; discriminate.
  - rewrite <- IH. destruct (Arr.findIndex p l); simpl; split; congruence.
Qed.

Lemma find_None_existsb {A : Type} (p : A -> bool) (l : list A) :
  find p l = None <-> existsb p l = false.
Proof.
  induction l as [|y l IH]; simpl; [tauto|].
  destruct (p y); simpl; [split; discriminate | exact IH].
Qed.

(** An id that no task carries. *)
Lemma absent_existsb (l : list Task) (taskId : Id) :
  ~ In taskId (map id l) <->
  existsb (fun t => String.eqb (id t) taskId) l = false.
Proof.
  induction l as [|t l IH]; simpl; [tauto|].
  destruct (String.eqb_spec (id t) taskId) as [E|E]; simpl.
  - split; [intros H; exfalso; apply H; now left | discriminate].
  - rewrite <- IH. tauto.
Qed.

Lemma assign_length {A : Type} (l : list A) (i : nat) (x : A) :
  List.length (Arr.assign l i x) = List.length l.
Proof.
  revert i. induction l as [|y l IH]; intros [|i]; simpl; auto.
Qed.

Lemma assign_same {A : Type} (l : list A) (i : nat) (x : A) :
  (i < List.length l)%nat -> nth_error (Arr.assign l i x) i = Some x.
Proof.
  revert i. induction l as [|y l IH]; intros [|i] H; simpl in *; try lia; auto.
  apply IH. lia.
Qed.

Lemma assign_other {A : Type} (l : list A) (i j : nat) (x : A) :
  i <> j -> nth_error (Arr.assign l i x) j = nth_error l j.
Proof.
  revert i j. induction l as [|y l IH]; intros [|i] [|j] H; simpl; auto.
  congruence.
Qed.

(** Filtering out an id that is not there changes nothing. *)
Lemma filter_absent (l : list Task) (taskId : Id) :
  ~ In taskId (map id l) ->
  filter (fun t => negb (String.eqb (id t) taskId)) l = l.
Proof.
  induction l as [|t l IH]; simpl; [reflexivity|]. intros H.
  destruct (String.eqb_spec (id t) taskId) as [E|E]; simpl.
  - exfalso. apply H. now left.
  - f_equal. apply IH. tauto.
Qed.

End ArrFacts.

(* ------------------------------------------------------------------ *)
(** ** The history log *)

Module HistoryFacts.

Lemma kept_length (sm : StateManager) :
  historyInRange sm ->
  Z.of_nat (List.length (kept sm)) = historyIndex sm + 1.
Proof.
  unfold historyInRange, kept. intros H.
  rewrite length_firstn. lia.
Qed.

Lemma addToHistory_state (sm : StateManager) (p : State) (a : Action) :
  state (addToHistory sm p a) = state sm.
Proof.
  unfold addToHistory.
  now destruct (Z.of_nat (List.length _) >? historySize).
Qed.

(** The truncation step, in one formula. *)
Lemma truncation (sm : StateManager) :
  historyInRange sm ->
  (if historyIndex sm <? Z.of_nat (List.length (history sm)) - 1
   then Arr.slice0 (history sm) (historyIndex sm + 1)
   else history sm) = kept sm.
Proof.
  unfold historyInRange, kept, Arr.slice0. intros H.
  destruct (Z.ltb_spec (historyIndex sm) (Z.of_nat (List.length (history sm)) - 1)).
  - destruct (Z.ltb_spec (historyIndex sm + 1) 0); [lia|].
    f_equal. lia.
  - symmetry. apply firstn_all2. lia.
Qed.

(** Below the bound the entry is appended and the counter advances. *)
Lemma addToHistory_room (sm : StateManager) (p : State) (a : Action) :
  historyInRange sm ->
  historyIndex sm + 1 < historySize ->
  addToHistory sm p a =
  mkSM (state sm) (kept sm ++ [mkEntry p a]) (historyIndex sm + 1).
Proof.
  intros H Hroom. unfold addToHistory. rewrite (truncation sm H).
  pose proof (kept_length sm H) as HL.
  rewrite length_app. simpl List.length.
  destruct (Z.gtb_spec (Z.of_nat (List.length (kept sm) + 1)) historySize);
    [lia | reflexivity].
Qed.

(** At the bound the oldest entry is dropped and the counter stays. *)
Lemma addToHistory_full (sm : StateManager) (p : State) (a : Action) :
  historyInRange sm ->
  historySize <= historyIndex sm + 1 ->
  addToHistory sm p a =
  mkSM (state sm) (tl (kept sm ++ [mkEntry p a])) (historyIndex sm).
Proof.
  intros H Hfull. unfold addToHistory. rewrite (truncation sm H).
  pose proof (kept_length sm H) as HL.
  rewrite length_app. simpl List.length.
  destruct (Z.gtb_spec (Z.of_nat (List.length (kept sm) + 1)) historySize);
    [reflexivity | lia].
Qed.

Lemma length_tl_app {A : Type} (l : list A) (x : A) :
  List.length (tl (l ++ [x])) = List.length l.
Proof.
  destruct l; simpl; [reflexivity|]. rewrite length_app. simpl. lia.
Qed.

(** After a record the counter is on the last entry, which is the new
    one. *)
Lemma addToHistory_at_end (sm : StateManager) (p : State) (a : Action) :
  historyInRange sm ->
  let sm' := addToHistory sm p a in
  historyIndex sm' = Z.of_nat (List.length (history sm')) - 1 /\
  0 <= historyIndex sm' /\
  Arr.at_index (history sm') (historyIndex sm') = Some (mkEntry p a).
Proof.
  intros H. pose proof (kept_length sm H) as HL. pose proof H as [Hlo Hhi].
  destruct (Z.lt_ge_cases (historyIndex sm + 1) historySize) as [Hroom|Hfull].
  - cbv zeta. rewrite (addToHistory_room sm p a H Hroom). simpl.
    rewrite length_app. simpl List.length.
    split; [lia|]. split; [lia|].
    unfold Arr.at_index.
    destruct (Z.ltb_spec (historyIndex sm + 1) 0); [lia|].
    replace (Z.to_nat (historyIndex sm + 1)) with (List.length (kept sm)) by lia.
    rewrite nth_error_app2 by lia. now rewrite Nat.sub_diag.
  - cbv zeta. rewrite (addToHistory_full sm p a H Hfull). simpl.
    rewrite length_tl_app.
    unfold historySize in Hfull.
    split; [lia|]. split; [lia|].
    unfold Arr.at_index.
    destruct (Z.ltb_spec (historyIndex sm) 0); [lia|].
    destruct (kept sm) as [|e0 k] eqn:Ek; [simpl in HL; lia|].
    simpl tl. simpl List.length in HL.
    replace (Z.to_nat (historyIndex sm)) with (List.length k) by lia.
    rewrite nth_error_app2 by lia. now rewrite Nat.sub_diag.
Qed.

Lemma addToHistory_inRange (sm : StateManager) (p : State) (a : Action) :
  historyInRange sm -> historyInRange (addToHistory sm p a).
Proof.
  intros H. destruct (addToHistory_at_end sm p a H) as [He [H0 _]].
  unfold historyInRange. lia.
Qed.

(** The log never grows beyond [historySize]. *)
Lemma addToHistory_bounded (sm : StateManager) (p : State) (a : Action) :
  historyInRange sm ->
  Z.of_nat (List.length (history sm)) <= historySize ->
  Z.of_nat (List.length (history (addToHistory sm p a))) <= historySize.
Proof.
  intros H Hb. pose proof (kept_length sm H) as HL. pose proof H as [Hlo Hhi].
  destruct (Z.lt_ge_cases (historyIndex sm + 1) historySize) as [Hroom|Hfull].
  - rewrite (addToHistory_room sm p a H Hroom). simpl.
    rewrite length_app. simpl List.length. lia.
  - rewrite (addToHistory_full sm p a H Hfull). simpl.
    rewrite length_tl_app. lia.
Qed.

End HistoryFacts.

(* ------------------------------------------------------------------ *)
(** ** setState, undo and redo *)

Section StateFacts.

Variable lc : string -> string -> Z.

Lemma setState_state (sm : StateManager) (n : NewState) (a : option Action) :
  state (setState lc sm n a) =
  if touchesProjection n
  then updateFilteredTasks lc (spread (state sm) n)
  else spread (state sm) n.
Proof.
  unfold setState.
  destruct a as [[]|]; destruct (touchesProjection n); simpl;
    rewrite ?HistoryFacts.addToHistory_state; reflexivity.
Qed.

Lemma addToHistory_log (s s' : State) (h : list HistoryEntry) (i : Z)
    (p : State) (a : Action) :
  logOf (addToHistory (mkSM s h i) p a) = logOf (addToHistory (mkSM s' h i) p a).
Proof.
  unfold addToHistory, logOf. simpl.
  now destruct (Z.of_nat (List.length _) >? historySize).
Qed.

Lemma logOf_rebuild (s : State) (sm : StateManager) :
  logOf (mkSM s (history sm) (historyIndex sm)) = logOf sm.
Proof. reflexivity. Qed.

Lemma setState_log_recorded (sm : StateManager) (n : NewState) (a : Action) :
  isRecordable a = true ->
  logOf (setState lc sm n (Some a)) = logOf (addToHistory sm (deepClone (state sm)) a).
Proof.
  intros Ha. destruct sm as [s h i]. unfold setState.
  destruct a; try discriminate; destruct (touchesProjection n);
    rewrite ?logOf_rebuild; apply addToHistory_log.
Qed.

Lemma setState_log_silent (sm : StateManager) (n : NewState) (a : option Action) :
  match a with
  | Some act => isRecordable act = false
  | None => True
  end ->
  logOf (setState lc sm n a) = logOf sm.
Proof.
  intros Ha. unfold setState.
  destruct a as [[]|]; try discriminate; now destruct (touchesProjection n).
Qed.

Lemma spread_whole (s p : State) : spread s (asNewState p) = p.
Proof. now destruct p. Qed.

Lemma touches_whole (p : State) : touchesProjection (asNewState p) = true.
Proof. reflexivity. Qed.

(** A successful [undo]: the snapshot of the entry under the counter
    becomes the state, the view is recomputed, the counter steps back and
    the log is left alone. *)
Lemma undo_step (sm : StateManager) :
  historyInRange sm -> 0 <= historyIndex sm ->
  exists e,
    Arr.at_index (history sm) (historyIndex sm) = Some e /\
    undo lc sm =
    (mkSM (updateFilteredTasks lc (prevState e)) (history sm) (historyIndex sm - 1),
     Returned true).
Proof.
  intros [Hlo Hhi] H0. unfold undo, Arr.at_index.
  destruct (Z.geb_spec (historyIndex sm) 0); [|lia].
  destruct (Z.ltb_spec (historyIndex sm) 0); [lia|].
  destruct (nth_error (history sm) (Z.to_nat (historyIndex sm))) as [e|] eqn:E.
  - exists e. split; [reflexivity|].
    unfold setState. rewrite touches_whole. simpl. now rewrite spread_whole.
  - apply nth_error_None in E. lia.
Qed.

Lemma undo_nothing (sm : StateManager) :
  historyIndex sm < 0 -> undo lc sm = (sm, Returned false).
Proof.
  intros H. unfold undo. destruct (Z.geb_spec (historyIndex sm) 0); [lia|reflexivity].
Qed.



(** [k] undos from a counter that allows them only move the counter. *)
Lemma undoMany_log (k : nat) (sm : StateManager) :
  historyInRange sm ->
  Z.of_nat k <= historyIndex sm + 1 ->
  logOf (undoMany lc k sm) = (history sm, historyIndex sm - Z.of_nat k).
Proof.
  intros Hr. induction k as [|k IH]; intros Hk.
  - unfold logOf. simpl. f_equal. lia.
  - assert (Hk' : Z.of_nat k <= historyIndex sm + 1) by lia.
    specialize (IH Hk'). unfold logOf in IH. inversion IH as [[Hh Hi]].
    change (undoMany lc (S k) sm) with (fst (undo lc (undoMany lc k sm))).
    destruct (undo_step (undoMany lc k sm)) as [e [_ Hu]].
    + unfold historyInRange in *. rewrite Hh, Hi. lia.
    + lia.
    + rewrite Hu. unfold logOf. simpl. rewrite Hh, Hi. f_equal. lia.
Qed.

Lemma undoMany_succeeds (k : nat) (sm : StateManager) :
  historyInRange sm ->
  Z.of_nat k < historyIndex sm + 1 ->
  snd (undo lc (undoMany lc k sm)) = Returned true.
Proof.
  intros Hr Hk.
  pose proof (undoMany_log k sm Hr ltac:(lia)) as HL.
  unfold logOf in HL. inversion HL as [[Hh Hi]].
  destruct (undo_step (undoMany lc k sm)) as [e [_ Hu]].
  - unfold historyInRange in *. rewrite Hh, Hi. lia.
  - lia.
  - now rewrite Hu.
Qed.

(** Once the counter has stepped back before the first entry, [undo]
    reports that nothing is left and changes nothing. *)
Lemma undoMany_exhausted (k : nat) (sm : StateManager) :
  historyInRange sm ->
  Z.of_nat k = historyIndex sm + 1 ->
  undo lc (undoMany lc k sm) = (undoMany lc k sm, Returned false).
Proof.
  intros Hr Hk. apply undo_nothing.
  pose proof (undoMany_log k sm Hr ltac:(lia)) as HU.
  apply (f_equal snd) in HU. simpl in HU. lia.
Qed.

(** Recorded calls that fit under the bound append their descriptors. *)
Lemma recordAll_room (steps : list (NewState * Action)) (sm : StateManager) :
  historyIndex sm = Z.of_nat (List.length (history sm)) - 1 ->
  Forall (fun step => isRecordable (snd step) = true) steps ->
  Z.of_nat (List.length (history sm) + List.length steps) <= historySize ->
  let sm' := recordAll lc sm steps in
  map action (history sm') = map action (history sm) ++ map snd steps /\
  historyIndex sm' = Z.of_nat (List.length (history sm')) - 1.
Proof.
  revert sm. induction steps as [|[n a] steps IH]; intros sm He Hrec Hlen.
  - simpl. rewrite app_nil_r. auto.
  - inversion Hrec as [|x l Ha Hrest]; subst. simpl in Ha.
    simpl List.length in Hlen.
    assert (Hr : historyInRange sm) by (unfold historyInRange; lia).
    pose proof (setState_log_recorded sm n a Ha) as HL.
    rewrite (HistoryFacts.addToHistory_room sm (deepClone (state sm)) a Hr) in HL
      by (unfold historySize in *; lia).
    unfold logOf in HL. simpl in HL. inversion HL as [[Hh Hi]].
    assert (Hkept : kept sm = history sm).
    { unfold kept. apply firstn_all2. lia. }
    rewrite Hkept in Hh.
    change (recordAll lc sm ((n, a) :: steps))
      with (recordAll lc (setState lc sm n (Some a)) steps).
    destruct (IH (setState lc sm n (Some a))) as [Hm Hend].
    + rewrite Hh, Hi, length_app. simpl List.length. lia.
    + exact Hrest.
    + rewrite Hh, length_app. simpl List.length. lia.
    + cbv zeta. split; [|exact Hend].
      rewrite Hm, Hh, map_app. simpl. now rewrite <- app_assoc.
Qed.

End StateFacts.

(* ------------------------------------------------------------------ *)
(** ** The history window *)

Section HistoryWindow.

Variable lc : string -> string -> Z.

Lemma map_tl {A B : Type} (f : A -> B) (l : list A) : map f (tl l) = tl (map f l).
Proof. now destruct l. Qed.

Lemma Forall_prefix {A : Type} (P : A -> Prop) (k : nat) (l : list A) :
  Forall P l -> Forall P (firstn k l).
Proof.
  intros H. rewrite <- (firstn_skipn k l) in H.
  now apply Forall_app in H.
Qed.

(** C2. From an empty history, eleven recorded actions leave ten undo
    steps.  The log never holds more than [historySize] = 10 entries; the
    eleventh record drops the oldest entry and leaves the position counter
    where it was; the descriptors left are those of actions 2 to 11; ten
    undos succeed and the eleventh reports that nothing is left, so the
    first action cannot be undone any more. *)
Theorem history_bound (sm : StateManager) (steps : list (NewState * Action)) :
  history sm = [] ->
  historyIndex sm = -1 ->
  Forall (fun step => isRecordable (snd step) = true) steps ->
  List.length steps = 11%nat ->
  let sm10 := recordAll lc sm (firstn 10 steps) in
  let sm' := recordAll lc sm steps in
  (forall k, Z.of_nat (List.length (history (recordAll lc sm (firstn k steps))))
             <= historySize) /\
  List.length (history sm10) = 10%nat /\
  historyIndex sm10 = 9 /\
  (exists e, history sm' = tl (history sm10 ++ [e])) /\
  historyIndex sm' = historyIndex sm10 /\
  List.length (history sm') = 10%nat /\
  map action (history sm') = tl (map snd steps) /\
  (forall k, (k < 10)%nat -> snd (undo lc (undoMany lc k sm')) = Returned true) /\
  undo lc (undoMany lc 10 sm') = (undoMany lc 10 sm', Returned false).
Proof.
  intros Hh Hi Hrec Hlen sm10 sm'.
  assert (Hroom : forall k, (k <= 10)%nat ->
            map action (history (recordAll lc sm (firstn k steps)))
            = map snd (firstn k steps) /\
            historyIndex (recordAll lc sm (firstn k steps))
            = Z.of_nat (List.length (history (recordAll lc sm (firstn k steps)))) - 1).
  { intros k Hk.
    destruct (recordAll_room lc (firstn k steps) sm) as [Hm He].
    - rewrite Hh, Hi. reflexivity.
    - now apply Forall_prefix.
    - rewrite Hh, length_firstn. unfold historySize. simpl List.length. lia.
    - rewrite Hh in Hm. simpl in Hm. auto. }
  assert (Hlen_k : forall k, (k <= 10)%nat ->
            List.length (history (recordAll lc sm (firstn k steps))) = k).
  { intros k Hk. destruct (Hroom k Hk) as [Hm _].
    apply (f_equal (@List.length Action)) in Hm.
    rewrite !length_map, length_firstn in Hm. lia. }
  destruct (Hroom 10%nat (Nat.le_refl _)) as [Hm10 He10].
  pose proof (Hlen_k 10%nat (Nat.le_refl _)) as HL10.
  fold sm10 in Hm10, He10, HL10.
  assert (Hsplit : steps = firstn 10 steps ++ skipn 10 steps)
    by (symmetry; apply firstn_skipn).
  destruct (skipn 10 steps) as [|[n a] rest] eqn:Hskip.
  { apply (f_equal (@List.length _)) in Hskip. rewrite length_skipn in Hskip.
    simpl in Hskip. lia. }
  destruct rest as [|x rest].
  2:{ apply (f_equal (@List.length _)) in Hskip. rewrite length_skipn in Hskip.
      simpl in Hskip. lia. }
  assert (Ha : isRecordable a = true).
  { rewrite Hsplit in Hrec. apply Forall_app in Hrec. destruct Hrec as [_ Hl].
    now inversion Hl. }
  assert (Hsm' : sm' = setState lc sm10 n (Some a)).
  { unfold sm', recordAll. rewrite Hsplit at 1. now rewrite fold_left_app. }
  assert (Hr10 : historyInRange sm10) by (unfold historyInRange; lia).
  pose proof (setState_log_recorded lc sm10 n a Ha) as HL.
  rewrite (HistoryFacts.addToHistory_full sm10 (deepClone (state sm10)) a Hr10) in HL
    by (unfold historySize; lia).
  rewrite <- Hsm' in HL. unfold logOf in HL. simpl in HL.
  injection HL as Hh' Hi'.
  assert (Hkept : kept sm10 = history sm10).
  { unfold kept. apply firstn_all2. lia. }
  rewrite Hkept in Hh'.
  assert (HL' : List.length (history sm') = 10%nat).
  { rewrite Hh', HistoryFacts.length_tl_app. exact HL10. }
  assert (Hr' : historyInRange sm') by (unfold historyInRange; lia).
  split.
  { intros k. destruct (Nat.le_gt_cases k 10) as [Hk|Hk].
    - rewrite (Hlen_k k Hk). unfold historySize. lia.
    - rewrite firstn_all2 by lia. fold sm'. rewrite HL'. unfold historySize. lia. }
  split; [exact HL10|].
  split; [lia|].
  split; [eexists; exact Hh'|].
  split; [exact Hi'|].
  split; [exact HL'|].
  split.
  { rewrite Hh', map_tl, map_app, Hm10. simpl map.
    rewrite Hsplit at 2. now rewrite map_app. }
  split.
  - intros k Hk. apply undoMany_succeeds; [exact Hr'|lia].
  - apply undoMany_exhausted; [exact Hr'|lia].
Qed.

End HistoryWindow.

(* ------------------------------------------------------------------ *)
(** ** Commands, their record in the log, and their replay *)

Section Replay.

Variable lc : string -> string -> Z.

Lemma settings_view (s : State) : settings (updateFilteredTasks lc s) = settings s.
Proof. reflexivity. Qed.

Lemma settings_tasks (s s' : State) : settings s = settings s' -> tasks s = tasks s'.
Proof. intros H. apply (f_equal tasks) in H. exact H. Qed.

Lemma settings_spread (s s' : State) (l : list Task) :
  settings s = settings s' ->
  settings (spread s (tasksOnly l)) = settings (spread s' (tasksOnly l)).
Proof.
  destruct s, s'. unfold settings. simpl. intros H. now inversion H.
Qed.

Lemma settings_projection (s s' : State) :
  settings s = settings s' -> projection lc s = projection lc s'.
Proof.
  destruct s, s'. unfold settings, projection. simpl. intros H. now inversion H.
Qed.

(** Two states with the same inputs and an up-to-date view look the
    same. *)
Lemma observable_fresh (s s' : State) :
  settings s = settings s' ->
  filteredTasks s = projection lc s ->
  filteredTasks s' = projection lc s' ->
  observable s = observable s'.
Proof.
  intros H Hs Hs'. pose proof (settings_projection s s' H) as HP.
  destruct s, s'.
  unfold settings, observable, set_filteredTasks, set_selectedTasks in *.
  simpl in *. inversion H. subst. congruence.
Qed.

Lemma setState_tasks_state (sm : StateManager) (l : list Task) (a : option Action) :
  state (setState lc sm (tasksOnly l) a)
  = updateFilteredTasks lc (spread (state sm) (tasksOnly l)).
Proof. now rewrite setState_state. Qed.

Lemma setState_tasks_fresh (sm : StateManager) (l : list Task) (a : option Action) :
  filteredTasks (state (setState lc sm (tasksOnly l) a))
  = projection lc (state (setState lc sm (tasksOnly l) a)).
Proof. rewrite setState_tasks_state. reflexivity. Qed.

Lemma fst_forget {A : Type} (r : StateManager * Completion A) :
  fst (forget r) = fst r.
Proof. now destruct r as [x [a|]]. Qed.

(** [updateTask] on an id that is there. *)
Lemma updateTask_found (sm : StateManager) (env : Env) (taskId : Id)
    (u : Updates) (b : bool) :
  hasTask (state sm) taskId = true ->
  exists i old,
    Arr.findIndex (fun t => String.eqb (id t) taskId) (tasks (state sm)) = Some i /\
    nth_error (tasks (state sm)) i = Some old /\
    id old = taskId /\
    updateTask lc sm env taskId u b =
    (setState lc sm
       (tasksOnly (Arr.assign (tasks (state sm)) i (applyUpdates old u (now env))))
       (recordIf b (UPDATE_TASK taskId u)),
     Returned (Some (applyUpdates old u (now env)))).
Proof.
  unfold hasTask, updateTask. intros H.
  destruct (Arr.findIndex _ (tasks (state sm))) as [i|] eqn:E.
  - destruct (ArrFacts.findIndex_Some _ _ _ E) as [old [Hn Hp]].
    exists i, old. rewrite Hn. apply String.eqb_eq in Hp. auto.
  - apply ArrFacts.findIndex_None in E. congruence.
Qed.

Lemma updateTask_absent (sm : StateManager) (env : Env) (taskId : Id)
    (u : Updates) (b : bool) :
  hasTask (state sm) taskId = false ->
  updateTask lc sm env taskId u b = (sm, Returned None).
Proof.
  unfold hasTask, updateTask. intros H.
  apply ArrFacts.findIndex_None in H. now rewrite H.
Qed.

Lemma toggle_found (sm : StateManager) (env : Env) (taskId : Id) (b : bool) :
  hasTask (state sm) taskId = true ->
  exists task,
    find (fun t => String.eqb (id t) taskId) (tasks (state sm)) = Some task /\
    toggleTaskComplete lc sm env taskId b =
    updateTask lc sm env taskId
      (completedKey (negb (completed task))) b.
Proof.
  unfold hasTask, toggleTaskComplete. intros H.
  destruct (find _ (tasks (state sm))) as [task|] eqn:E.
  - exists task. auto.
  - apply ArrFacts.find_None_existsb in E. congruence.
Qed.

Lemma toggle_absent (sm : StateManager) (env : Env) (taskId : Id) (b : bool) :
  hasTask (state sm) taskId = false ->
  toggleTaskComplete lc sm env taskId b = (sm, Returned None).
Proof.
  unfold hasTask, toggleTaskComplete. intros H.
  apply ArrFacts.find_None_existsb in H. now rewrite H.
Qed.

(** [deleteTask] is its [setState], up to the selection. *)
Lemma deleteTask_shape (sm : StateManager) (taskId : Id) (b : bool) :
  let sm1 :=
    setState lc sm
      (tasksOnly (filter (fun t => negb (String.eqb (id t) taskId)) (tasks (state sm))))
      (recordIf b (DELETE_TASK taskId)) in
  logOf (fst (deleteTask lc sm taskId b)) = logOf sm1 /\
  settings (state (fst (deleteTask lc sm taskId b))) = settings (state sm1) /\
  filteredTasks (state (fst (deleteTask lc sm taskId b))) = filteredTasks (state sm1).
Proof.
  cbv zeta. unfold deleteTask.
  destruct (selection_delete _ taskId); simpl; auto.
Qed.

Lemma bulkDelete_shape (sm : StateManager) (taskIds : list Id) :
  let sm1 :=
    setState lc sm
      (tasksOnly (filter (fun task => negb (Arr.includes taskIds (id task)))
                         (tasks (state sm))))
      (Some (BULK_DELETE taskIds)) in
  logOf (fst (bulkDelete lc sm taskIds)) = logOf sm1 /\
  settings (state (fst (bulkDelete lc sm taskIds))) = settings (state sm1) /\
  filteredTasks (state (fst (bulkDelete lc sm taskIds))) = filteredTasks (state sm1).
Proof.
  cbv zeta. unfold bulkDelete.
  destruct (selection_deleteAll _ taskIds); simpl; auto.
Qed.

(** A recorded command leaves its descriptor, with the snapshot of the
    state it started from, at the end of the log. *)
Lemma run_log (sm : StateManager) (env : Env) (c : Command) :
  isRecorded sm c = true ->
  isRecordable (descriptor sm env c) = true /\
  logOf (fst (run lc sm env c))
  = logOf (addToHistory sm (deepClone (state sm)) (descriptor sm env c)).
Proof.
  intros Hrec. destruct c; simpl in Hrec; simpl descriptor; unfold run;
    rewrite ?fst_forget.
  - split; [reflexivity|]. unfold addTask. simpl fst.
    now apply setState_log_recorded.
  - split; [reflexivity|].
    destruct (updateTask_found sm env taskId updates true Hrec)
      as [i [old [_ [_ [_ Hu]]]]].
    rewrite Hu. simpl fst. now apply setState_log_recorded.
  - split; [reflexivity|].
    destruct (deleteTask_shape sm taskId true) as [HL _]. rewrite HL.
    now apply setState_log_recorded.
  - destruct (toggle_found sm env taskId true Hrec) as [task [Hf Ht]].
    rewrite Hf, Ht. split; [reflexivity|].
    destruct (updateTask_found sm env taskId
                (completedKey (negb (completed task)))
                true Hrec) as [i [old [_ [_ [_ Hu]]]]].
    rewrite Hu. simpl fst. now apply setState_log_recorded.
  - split; [reflexivity|]. unfold clearCompleted. simpl fst.
    now apply setState_log_recorded.
  - split; [reflexivity|]. unfold bulkComplete. simpl fst.
    now apply setState_log_recorded.
  - split; [reflexivity|].
    destruct (bulkDelete_shape sm taskIds) as [HL _]. rewrite HL.
    now apply setState_log_recorded.
  - split; [reflexivity|]. unfold bulkSetPriority. simpl fst.
    now apply setState_log_recorded.
Qed.

(** *** The counter stays inside the log *)

Lemma inRange_log (a b : StateManager) :
  logOf a = logOf b -> historyInRange a -> historyInRange b.
Proof.
  unfold logOf, historyInRange. intros H. injection H as Hh Hi.
  now rewrite Hh, Hi.
Qed.

Lemma setState_inRange (sm : StateManager) (n : NewState) (a : option Action) :
  historyInRange sm -> historyInRange (setState lc sm n a).
Proof.
  intros Hr. destruct a as [act|].
  - destruct (isRecordable act) eqn:E.
    + apply (inRange_log (addToHistory sm (deepClone (state sm)) act)).
      * symmetry. now apply setState_log_recorded.
      * now apply HistoryFacts.addToHistory_inRange.
    + apply (inRange_log sm); [|exact Hr].
      symmetry. now apply (setState_log_silent lc sm n (Some act)).
  - apply (inRange_log sm); [|exact Hr].
    symmetry. now apply (setState_log_silent lc sm n None).
Qed.

(** Replaying a descriptor records nothing. *)
Lemma executeAction_log (sm : StateManager) (env : Env) (a : Action) :
  logOf (fst (executeAction lc sm env a)) = logOf sm.
Proof.
  assert (Hupd : forall taskId updates,
            logOf (fst (updateTask lc sm env taskId updates false)) = logOf sm).
  { intros taskId updates. destruct (hasTask (state sm) taskId) eqn:E.
    - destruct (updateTask_found sm env taskId updates false E)
        as [i [old [_ [_ [_ Hu]]]]].
      rewrite Hu. simpl fst. now apply (setState_log_silent lc sm _ None).
    - now rewrite (updateTask_absent sm env taskId updates false E). }
  destruct a; simpl executeAction; rewrite ?fst_forget;
    [ | apply Hupd | | | reflexivity .. ].
  - unfold addTask. simpl fst. now apply (setState_log_silent lc sm _ None).
  - destruct (deleteTask_shape sm taskId false) as [HL _]. rewrite HL.
    now apply (setState_log_silent lc sm _ None).
  - destruct (hasTask (state sm) taskId) eqn:E.
    + destruct (toggle_found sm env taskId false E) as [task [_ Ht]].
      rewrite Ht. apply Hupd.
    + now rewrite (toggle_absent sm env taskId false E).
Qed.

(** The state manager of the constructor has its counter in range, and
    every command, [undo] and [redo] keep it there. *)
Lemma run_inRange (sm : StateManager) (env : Env) (c : Command) :
  historyInRange sm -> historyInRange (fst (run lc sm env c)).
Proof.
  intros Hr. destruct (isRecorded sm c) eqn:E.
  - destruct (run_log sm env c E) as [_ HL].
    apply (inRange_log _ _ (eq_sym HL)).
    now apply HistoryFacts.addToHistory_inRange.
  - destruct c; try discriminate; simpl in E; unfold run; rewrite fst_forget.
    + now rewrite (updateTask_absent sm env taskId updates true E).
    + now rewrite (toggle_absent sm env taskId true E).
Qed.

Lemma undo_inRange (sm : StateManager) :
  historyInRange sm -> historyInRange (fst (undo lc sm)).
Proof.
  intros Hr. destruct (Z.lt_ge_cases (historyIndex sm) 0) as [Hneg|Hpos].
  - now rewrite (undo_nothing lc sm Hneg).
  - destruct (undo_step lc sm Hr Hpos) as [e [_ Hu]]. rewrite Hu.
    unfold historyInRange in *. simpl. lia.
Qed.

Lemma redo_inRange (sm : StateManager) (env : Env) :
  historyInRange sm -> historyInRange (fst (redo lc sm env)).
Proof.
  intros Hr. unfold redo.
  destruct (Z.ltb_spec (historyIndex sm) (Z.of_nat (List.length (history sm)) - 1));
    [|exact Hr].
  assert (Hr1 : historyInRange (mkSM (state sm) (history sm) (historyIndex sm + 1)))
    by (unfold historyInRange in *; simpl; lia).
  cbv zeta. simpl history. simpl historyIndex.
  destruct (Arr.at_index (history sm) (historyIndex sm + 1)) as [e|]; [|exact Hr1].
  pose proof (executeAction_log
                (mkSM (state sm) (history sm) (historyIndex sm + 1)) env (action e)) as HL.
  destruct (executeAction lc _ env (action e)) as [x [u|]]; simpl in *;
    apply (inRange_log _ _ (eq_sym HL) Hr1).
Qed.

(** The log invariant: the counter is inside the log and the log holds
    at most [historySize] entries. *)
Lemma logInvariant_log (a b : StateManager) :
  logOf a = logOf b -> logInvariant a -> logInvariant b.
Proof.
  unfold logOf, logInvariant, historyInRange. intros H. injection H as Hh Hi.
  now rewrite Hh, Hi.
Qed.

Lemma mapi_from_length {A B : Type} (f : nat -> A -> B) (k : nat) (l : list A) :
  List.length (Arr.mapi_from f k l) = List.length l.
Proof.
  revert k. induction l as [|x l IH]; intros k; simpl; [reflexivity|].
  now rewrite IH.
Qed.

(** The writes of a drop change what the entries of the log read, not
    how many there are nor where the counter stands. *)
Lemma afterWrites_invariant (sm : StateManager) (see : Holder -> Task -> Task) :
  logInvariant sm -> logInvariant (afterWrites sm see).
Proof.
  unfold logInvariant, historyInRange, afterWrites, Arr.mapi. simpl.
  now rewrite mapi_from_length.
Qed.

Lemma perform_invariant (sm : StateManager) (e : Event) :
  logInvariant sm -> logInvariant (perform lc sm e).
Proof.
  intros [Hr Hb]. destruct e as [env c| |env|n|env shared d t side]; simpl perform.
  - split; [now apply run_inRange|].
    destruct (isRecorded sm c) eqn:E.
    + destruct (run_log sm env c E) as [_ HL].
      apply (f_equal fst) in HL. unfold logOf in HL. simpl in HL. rewrite HL.
      now apply HistoryFacts.addToHistory_bounded.
    + destruct c; try discriminate; simpl in E; unfold run; rewrite fst_forget.
      * now rewrite (updateTask_absent sm env taskId updates true E).
      * now rewrite (toggle_absent sm env taskId true E).
  - split; [now apply undo_inRange|].
    destruct (Z.lt_ge_cases (historyIndex sm) 0) as [Hneg|Hpos].
    + now rewrite (undo_nothing lc sm Hneg).
    + destruct (undo_step lc sm Hr Hpos) as [e [_ Hu]]. now rewrite Hu.
  - split; [now apply redo_inRange|].
    unfold redo.
    destruct (Z.ltb_spec (historyIndex sm) (Z.of_nat (List.length (history sm)) - 1));
      [|exact Hb].
    cbv zeta. simpl history. simpl historyIndex.
    destruct (Arr.at_index (history sm) (historyIndex sm + 1)) as [e|]; [|exact Hb].
    pose proof (executeAction_log
                  (mkSM (state sm) (history sm) (historyIndex sm + 1)) env (action e))
      as HL.
    apply (f_equal fst) in HL. unfold logOf in HL. simpl in HL.
    destruct (executeAction lc _ env (action e)) as [x [u|]]; simpl in *;
      now rewrite HL.
  - apply (logInvariant_log sm); [|now split].
    symmetry. now apply (setState_log_silent lc sm n None).
  - unfold reorderTasks.
    destruct (Arr.splice_remove _ _) as [rest [removed|]]; simpl fst; [|now split].
    cbv zeta.
    match goal with
    | |- logInvariant (setState lc ?sm1 ?n None) =>
        apply (logInvariant_log sm1);
          [symmetry; now apply (setState_log_silent lc sm1 n None)|]
    end.
    apply afterWrites_invariant. now split.
Qed.

(** X1. In every state manager that a session of commands, undos,
    redos, plain [setState] calls and drops reaches from the constructor,
    the position counter lies between -1 and the last index of the log and
    the log holds at most [historySize] = 10 entries. *)
Lemma session_invariant (events : list Event) : logInvariant (session lc events).
Proof.
  unfold session.
  assert (H0 : logInvariant newStateManager).
  { unfold logInvariant, historyInRange, historySize. simpl. lia. }
  revert H0. generalize newStateManager.
  induction events as [|e events IH]; intros sm Hsm; simpl; [exact Hsm|].
  apply IH. now apply perform_invariant.
Qed.

(** A recorded command leaves the counter on the last entry, which is
    its own. *)
Lemma run_at_end (sm : StateManager) (env : Env) (c : Command) :
  historyInRange sm ->
  isRecorded sm c = true ->
  let sm1 := fst (run lc sm env c) in
  historyIndex sm1 = Z.of_nat (List.length (history sm1)) - 1 /\
  0 <= historyIndex sm1 /\
  Arr.at_index (history sm1) (historyIndex sm1)
  = Some (mkEntry (deepClone (state sm)) (descriptor sm env c)).
Proof.
  intros Hr Hrec. cbv zeta.
  destruct (run_log sm env c Hrec) as [_ HL].
  unfold logOf in HL. injection HL as Hh Hi. rewrite Hh, Hi.
  now apply HistoryFacts.addToHistory_at_end.
Qed.


(** C8. For an id that no task carries, [updateTask] and
    [toggleTaskComplete] return the value [false] (no exception) and the
    state manager is the one they were given: tasks, filteredTasks and
    history are untouched. *)
Theorem missing_id_is_noop (sm : StateManager) (env : Env) (taskId : Id)
    (u : Updates) (b : bool) :
  ~ In taskId (map id (tasks (state sm))) ->
  updateTask lc sm env taskId u b = (sm, Returned None) /\
  toggleTaskComplete lc sm env taskId b = (sm, Returned None).
Proof.
  intros H. apply ArrFacts.absent_existsb in H.
  split; [now apply updateTask_absent | now apply toggle_absent].
Qed.

Lemma present_hasTask (s : State) (taskId : Id) :
  In taskId (map id (tasks s)) -> hasTask s taskId = true.
Proof.
  intros H. unfold hasTask.
  destruct (existsb _ (tasks s)) eqn:E; [reflexivity|].
  apply ArrFacts.absent_existsb in E. contradiction.
Qed.

(** C9. [updateTask] on an id that is there rewrites the first task
    with that id and nothing else: all other positions of the collection
    hold the task they held before.  The new task carries the clock
    reading as [updatedAt] and takes every key that [updates] has from
    [updates], [id] and [createdAt] included, and every other key from
    the old task.  So it keeps its [id] when [updates] has no [id] key and
    its [createdAt] when [updates] has no [createdAt] key; the edit form
    and [toggleTaskComplete] send neither. *)
Theorem updateTask_frame (sm : StateManager) (env : Env) (taskId : Id)
    (u : Updates) (b : bool) :
  In taskId (map id (tasks (state sm))) ->
  exists i old,
    Arr.findIndex (fun t => String.eqb (id t) taskId) (tasks (state sm)) = Some i /\
    nth_error (tasks (state sm)) i = Some old /\
    id old = taskId /\
    let updated := applyUpdates old u (now env) in
    let tasks' := tasks (state (fst (updateTask lc sm env taskId u b))) in
    snd (updateTask lc sm env taskId u b) = Returned (Some updated) /\
    nth_error tasks' i = Some updated /\
    List.length tasks' = List.length (tasks (state sm)) /\
    (forall j, j <> i -> nth_error tasks' j = nth_error (tasks (state sm)) j) /\
    (u_id u = None -> id updated = id old) /\
    (u_createdAt u = None -> createdAt updated = createdAt old) /\
    updatedAt updated = now env /\
    id updated = orElse (u_id u) (id old) /\
    createdAt updated = orElse (u_createdAt u) (createdAt old) /\
    title updated = orElse (u_title u) (title old) /\
    notes updated = orElse (u_notes u) (notes old) /\
    completed updated = orElse (u_completed u) (completed old) /\
    dueAt updated = orElse (u_dueAt u) (dueAt old) /\
    priority updated = orElse (u_priority u) (priority old) /\
    tags updated = orElse (u_tags u) (tags old) /\
    parentId updated = orElse (u_parentId u) (parentId old) /\
    order updated = orElse (u_order u) (order old).
Proof.
  intros Hin. apply present_hasTask in Hin.
  destruct (updateTask_found sm env taskId u b Hin) as [i [old [Hf [Hn [Hid Hu]]]]].
  exists i, old. split; [exact Hf|]. split; [exact Hn|]. split; [exact Hid|].
  cbv zeta. rewrite Hu. simpl fst. simpl snd.
  rewrite setState_tasks_state. simpl tasks.
  split; [reflexivity|].
  split.
  { apply ArrFacts.assign_same. apply nth_error_Some. congruence. }
  split; [apply ArrFacts.assign_length|].
  split.
  { intros j Hj. apply ArrFacts.assign_other. congruence. }
  split.
  { intros Hk. cbn [id applyUpdates]. now rewrite Hk. }
  split.
  { intros Hk. cbn [createdAt applyUpdates]. now rewrite Hk. }
  repeat split.
Qed.

(** Undo right after a record: the snapshot taken by that record is
    restored. *)
Lemma undo_after_record (sm sm1 : StateManager) (a : Action) :
  historyInRange sm ->
  logOf sm1 = logOf (addToHistory sm (deepClone (state sm)) a) ->
  undo lc sm1 =
  (mkSM (updateFilteredTasks lc (deepClone (state sm)))
        (history sm1) (historyIndex sm1 - 1),
   Returned true).
Proof.
  intros Hr HL.
  destruct (HistoryFacts.addToHistory_at_end sm (deepClone (state sm)) a Hr)
    as [Hend [H0 Hat]].
  unfold logOf in HL. injection HL as Hh Hi. rewrite <- Hh, <- Hi in *.
  destruct (undo_step lc sm1) as [e [He Hu]].
  - unfold historyInRange. lia.
  - exact H0.
  - rewrite Hu. rewrite Hat in He. injection He as <-. reflexivity.
Qed.

(** C10, as the code has it.  [deleteTask] with an id that no task
    carries leaves the task sequence as it is and still records: a
    [DELETE_TASK] entry with the snapshot of the state becomes the last
    entry of the log and the position counter ends on it.  The counter
    advances by one while the log has room; when the entries kept already
    number [historySize], the oldest one is dropped and the counter stays.
    The next [undo] succeeds and restores the same tasks and settings. *)
Theorem deleteTask_absent_recorded (sm : StateManager) (taskId : Id) :
  historyInRange sm ->
  ~ In taskId (map id (tasks (state sm))) ->
  let sm1 := fst (deleteTask lc sm taskId true) in
  let entry := mkEntry (deepClone (state sm)) (DELETE_TASK taskId) in
  tasks (state sm1) = tasks (state sm) /\
  Arr.at_index (history sm1) (historyIndex sm1) = Some entry /\
  historyIndex sm1 = Z.of_nat (List.length (history sm1)) - 1 /\
  (historyIndex sm + 1 < historySize ->
   history sm1 = kept sm ++ [entry] /\ historyIndex sm1 = historyIndex sm + 1) /\
  (historySize <= historyIndex sm + 1 ->
   history sm1 = tl (kept sm ++ [entry]) /\ historyIndex sm1 = historyIndex sm) /\
  exists sm2,
    undo lc sm1 = (sm2, Returned true) /\
    historyIndex sm2 = historyIndex sm1 - 1 /\
    settings (state sm2) = settings (state sm) /\
    filteredTasks (state sm2) = projection lc (state sm).
Proof.
  intros Hr Habs sm1 entry.
  destruct (run_at_end sm (mkEnv "" 0) (DeleteTask taskId) Hr eq_refl)
    as [Hend [H0 Hat]].
  destruct (run_log sm (mkEnv "" 0) (DeleteTask taskId) eq_refl) as [_ HL].
  change (fst (run lc sm (mkEnv "" 0) (DeleteTask taskId))) with sm1 in *.
  simpl descriptor in *. fold entry in Hat.
  destruct (deleteTask_shape sm taskId true) as [_ [Hset _]].
  fold sm1 in Hset. cbv zeta in Hset.
  rewrite setState_tasks_state, settings_view in Hset.
  rewrite (ArrFacts.filter_absent _ _ Habs) in Hset.
  split.
  { apply settings_tasks in Hset. rewrite Hset. reflexivity. }
  split; [exact Hat|]. split; [exact Hend|].
  split.
  { intros Hroom.
    rewrite (HistoryFacts.addToHistory_room sm _ _ Hr Hroom) in HL.
    unfold logOf in HL. simpl in HL. now injection HL. }
  split.
  { intros Hfull.
    rewrite (HistoryFacts.addToHistory_full sm _ _ Hr Hfull) in HL.
    unfold logOf in HL. simpl in HL. now injection HL. }
  eexists. split; [exact (undo_after_record sm sm1 _ Hr HL)|].
  simpl. repeat split.
Qed.

(** Redo right after that undo: the descriptor of the entry is executed
    on the restored state. *)
Lemma redo_after_undo (sm sm1 : StateManager) (a : Action) (env' : Env) :
  historyInRange sm ->
  logOf sm1 = logOf (addToHistory sm (deepClone (state sm)) a) ->
  fst (redo lc (fst (undo lc sm1)) env')
  = fst (executeAction lc
           (mkSM (updateFilteredTasks lc (deepClone (state sm)))
                 (history sm1) (historyIndex sm1))
           env' a).
Proof.
  intros Hr HL. rewrite (undo_after_record sm sm1 a Hr HL). simpl fst.
  destruct (HistoryFacts.addToHistory_at_end sm (deepClone (state sm)) a Hr)
    as [Hend [H0 Hat]].
  unfold logOf in HL. injection HL as Hh Hi. rewrite <- Hh, <- Hi in *.
  unfold redo. simpl history. simpl historyIndex. simpl state.
  destruct (Z.ltb_spec (historyIndex sm1 - 1)
                       (Z.of_nat (List.length (history sm1)) - 1)); [|lia].
  replace (historyIndex sm1 - 1 + 1) with (historyIndex sm1) by lia.
  rewrite Hat. simpl action.
  now destruct (executeAction lc _ env' a) as [x [u|]].
Qed.

Lemma settings_after_tasks (a b : StateManager) (l : list Task)
    (x y : option Action) :
  settings (state a) = settings (state b) ->
  settings (state (setState lc a (tasksOnly l) x))
  = settings (state (setState lc b (tasksOnly l) y)).
Proof.
  intros H. rewrite !setState_tasks_state, !settings_view.
  now apply settings_spread.
Qed.

(** The task of an [ADD_TASK] descriptor, fed back to [addTask], gives
    the task the original draft gives: trimming, the defaults and the
    order of a new task are stable under a second pass. *)
Lemma newTask_replay (sm x : StateManager) (env env' : Env) (d : TaskData) :
  tasks (state x) = tasks (state sm) ->
  newTask x env' (taskAsData (newTask sm env d)) = newTask sm env' d.
Proof.
  intros Ht. unfold newTask, taskAsData. simpl. rewrite Ht.
  rewrite StrFacts.trim_idem, StrFacts.or_empty.
  f_equal.
  - destruct (d_parentId d) as [p|]; [|reflexivity].
    destruct (Str.truthy p) eqn:E; [now rewrite E | reflexivity].
  - destruct (d_order d) as [o|].
    + destruct (Z.eqb_spec o 0) as [->|Ho].
      * destruct (Z.eqb_spec (Z.of_nat (List.length (tasks (state sm)))) 0);
          congruence.
      * destruct (Z.eqb_spec o 0); congruence.
    + destruct (Z.eqb_spec (Z.of_nat (List.length (tasks (state sm)))) 0);
        congruence.
Qed.

(** Executing the descriptor of a command on a state with the same
    inputs does what the command itself does there. *)
Lemma replay_settings (sm x : StateManager) (env env' : Env) (c : Command) :
  hasReplayCase c = true ->
  isRecorded sm c = true ->
  settings (state x) = settings (state sm) ->
  let replayed := state (fst (executeAction lc x env' (descriptor sm env c))) in
  let direct := state (fst (run lc sm env' c)) in
  settings replayed = settings direct /\
  filteredTasks replayed = projection lc replayed /\
  filteredTasks direct = projection lc direct.
Proof.
  intros Hcase Hrec Hset. pose proof (settings_tasks _ _ Hset) as Ht.
  assert (Hhas : forall i, hasTask (state x) i = hasTask (state sm) i)
    by (intros i; unfold hasTask; now rewrite Ht).
  destruct c; try discriminate; simpl in Hrec; cbv zeta;
    unfold run; simpl descriptor.
  - unfold executeAction. rewrite !fst_forget. unfold addTask. simpl fst.
    rewrite (newTask_replay sm x env env' taskData Ht), Ht.
    split; [now apply settings_after_tasks|].
    split; apply setState_tasks_fresh.
  - unfold executeAction. rewrite !fst_forget.
    destruct (updateTask_found sm env' taskId updates true Hrec)
      as [i [old [Hf [Hn [_ Hu]]]]].
    assert (Hrec' : hasTask (state x) taskId = true) by now rewrite Hhas.
    destruct (updateTask_found x env' taskId updates false Hrec')
      as [i' [old' [Hf' [Hn' [_ Hu']]]]].
    rewrite Ht in Hf', Hn'. rewrite Hf in Hf'. injection Hf' as <-.
    rewrite Hn in Hn'. injection Hn' as <-.
    rewrite Hu, Hu', Ht. simpl fst.
    split; [now apply settings_after_tasks|].
    split; apply setState_tasks_fresh.
  - unfold executeAction.
    destruct (deleteTask_shape x taskId false) as [_ [Hx Hfx]].
    destruct (deleteTask_shape sm taskId true) as [_ [Hs Hfs]].
    cbv zeta in Hx, Hfx, Hs, Hfs.
    assert (Hp : forall u v : State, settings u = settings v ->
                 projection lc u = projection lc v)
      by (intros; now apply settings_projection).
    split; [rewrite Hx, Hs, Ht; now apply settings_after_tasks|].
    split.
    + rewrite Hfx, (Hp _ _ Hx). apply setState_tasks_fresh.
    + rewrite Hfs, (Hp _ _ Hs). apply setState_tasks_fresh.
  - destruct (toggle_found sm env taskId true Hrec) as [task [Hfind _]].
    destruct (toggle_found sm env' taskId true Hrec) as [task' [Hfind' Htog]].
    rewrite Hfind in Hfind'. injection Hfind' as <-.
    rewrite Hfind, Htog. unfold executeAction. rewrite !fst_forget.
    set (updates := completedKey (negb (completed task))).
    destruct (updateTask_found sm env' taskId updates true Hrec)
      as [i [old [Hf [Hn [_ Hu]]]]].
    assert (Hrec' : hasTask (state x) taskId = true) by now rewrite Hhas.
    destruct (updateTask_found x env' taskId updates false Hrec')
      as [i' [old' [Hf' [Hn' [_ Hu']]]]].
    rewrite Ht in Hf', Hn'. rewrite Hf in Hf'. injection Hf' as <-.
    rewrite Hn in Hn'. injection Hn' as <-.
    rewrite Hu, Hu', Ht. simpl fst.
    split; [now apply settings_after_tasks|].
    split; apply setState_tasks_fresh.
Qed.

(** C1, as the code has it.  Let a recorded command take [S] to [S'].
    [undo] then succeeds and restores the snapshot of [S]: tasks and
    settings are those of [S], the view is recomputed from them, and the
    selection is whatever the snapshot kept of it.  For the four commands
    whose descriptor [executeAction] handles (add, update, delete,
    toggle), the following [redo] executes the descriptor on the restored
    state, which yields what the command itself yields on [S] under the
    clock reading and the generated id of the time of the redo: equal to
    [S'] when these are the ones of the first run, and otherwise equal to
    it up to the time stamp or the id the command writes. *)
Theorem undo_redo_replay (sm : StateManager) (env env' : Env) (c : Command) :
  historyInRange sm ->
  isRecorded sm c = true ->
  let sm1 := fst (run lc sm env c) in
  let sm2 := fst (undo lc sm1) in
  snd (undo lc sm1) = Returned true /\
  state sm2 = updateFilteredTasks lc (deepClone (state sm)) /\
  settings (state sm2) = settings (state sm) /\
  (filteredTasks (state sm) = projection lc (state sm) ->
   observable (state sm2) = observable (state sm)) /\
  (hasReplayCase c = true ->
   observable (state (fst (redo lc sm2 env')))
   = observable (state (fst (run lc sm env' c)))).
Proof.
  intros Hr Hrec sm1 sm2.
  destruct (run_log sm env c Hrec) as [_ HL]. fold sm1 in HL.
  pose proof (undo_after_record sm sm1 _ Hr HL) as Hu.
  assert (Hsm2 : state sm2 = updateFilteredTasks lc (deepClone (state sm)))
    by (unfold sm2; now rewrite Hu).
  split; [now rewrite Hu|].
  split; [exact Hsm2|].
  split; [now rewrite Hsm2|].
  split.
  { intros Hfresh. rewrite Hsm2. apply observable_fresh;
      [reflexivity | reflexivity | exact Hfresh]. }
  intros Hcase. unfold sm2.
  rewrite (redo_after_undo sm sm1 _ env' Hr HL).
  destruct (replay_settings sm
              (mkSM (updateFilteredTasks lc (deepClone (state sm)))
                    (history sm1) (historyIndex sm1))
              env env' c Hcase Hrec eq_refl) as [Hs [Hf1 Hf2]].
  now apply observable_fresh.
Qed.

End Replay.

(* ------------------------------------------------------------------ *)
(** ** The import merge *)

Module ImportFacts.

Import Storage.

(** [mergeOne] by recursion on the local collection. *)
Lemma mergeOne_cons (x : Task) (l : list Task) (i : Task) :
  mergeOne (x :: l) i =
  if String.eqb (id x) (id i)
  then (if updatedAt i >? updatedAt x then i :: l else x :: l)
  else x :: mergeOne l i.
Proof.
  unfold mergeOne. simpl Arr.findIndex.
  destruct (String.eqb (id x) (id i)); simpl; [reflexivity|].
  destruct (Arr.findIndex _ l) as [k|]; simpl; [|reflexivity].
  destruct (nth_error l k) as [y|]; [|reflexivity].
  now destruct (updatedAt i >? updatedAt y).
Qed.

Lemma mergeOne_absent (l : list Task) (i : Task) :
  ~ In (id i) (map id l) -> mergeOne l i = l ++ [i].
Proof.
  induction l as [|x l IH]; intros H; [reflexivity|].
  rewrite mergeOne_cons. simpl in H.
  destruct (String.eqb_spec (id x) (id i)) as [E|E]; [tauto|].
  simpl. f_equal. apply IH. tauto.
Qed.

Lemma replaced_id (i x : Task) : id (replaced i x) = id x.
Proof.
  unfold replaced. destruct (String.eqb_spec (id x) (id i)) as [E|E]; [|reflexivity].
  now destruct (updatedAt i >? updatedAt x).
Qed.

Lemma replaced_other (i : Task) (l : list Task) :
  ~ In (id i) (map id l) -> map (replaced i) l = l.
Proof.
  induction l as [|x l IH]; intros H; [reflexivity|]. simpl in *.
  unfold replaced at 1.
  destruct (String.eqb_spec (id x) (id i)) as [E|E]; [tauto|].
  f_equal. apply IH. tauto.
Qed.

Lemma mergeOne_present (l : list Task) (i : Task) :
  NoDup (map id l) -> In (id i) (map id l) -> mergeOne l i = map (replaced i) l.
Proof.
  induction l as [|x l IH]; intros Hnd Hin; [contradiction|].
  rewrite mergeOne_cons. simpl map. simpl in Hnd, Hin.
  inversion Hnd as [|? ? Hx Hl]; subst.
  unfold replaced at 1.
  destruct (String.eqb_spec (id x) (id i)) as [E|E].
  - rewrite replaced_other by (rewrite <- E; exact Hx).
    now destruct (updatedAt i >? updatedAt x).
  - f_equal. apply IH; [exact Hl | tauto].
Qed.

Lemma find_absent (l : list Task) (x : Task) :
  ~ In (id x) (map id l) -> find (fun i => String.eqb (id i) (id x)) l = None.
Proof.
  induction l as [|y l IH]; intros H; [reflexivity|]. simpl in *.
  destruct (String.eqb_spec (id y) (id x)) as [E|E]; [tauto|].
  apply IH. tauto.
Qed.

Lemma resolved_absent (l : list Task) (x : Task) :
  ~ In (id x) (map id l) -> resolved l x = x.
Proof. intros H. unfold resolved. now rewrite find_absent. Qed.

Lemma isNew_spec (l : list Task) (i : Task) :
  isNew l i = true <-> ~ In (id i) (map id l).
Proof.
  unfold isNew. rewrite negb_true_iff. symmetry. apply ArrFacts.absent_existsb.
Qed.

Lemma isNew_ids (l l' : list Task) (i : Task) :
  map id l = map id l' -> isNew l i = isNew l' i.
Proof.
  intros H. destruct (isNew l' i) eqn:E.
  - apply isNew_spec. rewrite H. now apply isNew_spec.
  - destruct (isNew l i) eqn:E'; [|reflexivity].
    apply isNew_spec in E'. rewrite H in E'. apply isNew_spec in E'. congruence.
Qed.

(** One imported task more, seen from the specification. *)
Lemma mergedSpec_step (l imported : list Task) (i : Task) :
  NoDup (map id l) ->
  ~ In (id i) (map id imported) ->
  mergedSpec (mergeOne l i) imported = mergedSpec l (i :: imported).
Proof.
  intros Hnd Hi. unfold mergedSpec.
  destruct (in_dec string_dec (id i) (map id l)) as [Hin|Hout].
  - rewrite (mergeOne_present l i Hnd Hin).
    simpl filter.
    assert (Hnot : isNew l i = false).
    { destruct (isNew l i) eqn:E; [|reflexivity].
      apply isNew_spec in E. contradiction. }
    rewrite Hnot. f_equal.
    + rewrite map_map. apply map_ext. intros x.
      unfold resolved at 2. simpl find. unfold replaced.
      rewrite (String.eqb_sym (id i) (id x)).
      destruct (String.eqb_spec (id x) (id i)) as [E|E].
      * destruct (updatedAt i >? updatedAt x); apply resolved_absent; congruence.
      * reflexivity.
    + apply filter_ext. intros j. apply isNew_ids.
      rewrite map_map. apply map_ext. intros x. apply replaced_id.
  - rewrite (mergeOne_absent l i Hout).
    simpl filter.
    assert (Hyes : isNew l i = true) by now apply isNew_spec.
    rewrite Hyes, map_app. simpl map.
    rewrite (resolved_absent imported i Hi), <- app_assoc. simpl app.
    f_equal.
    + apply map_ext_in. intros x Hx. unfold resolved. simpl find.
      destruct (String.eqb_spec (id i) (id x)) as [E|E]; [|reflexivity].
      exfalso. apply Hout. rewrite E. now apply in_map.
    + f_equal. apply filter_ext_in. intros j Hj. unfold isNew. f_equal.
      rewrite existsb_app. simpl.
      destruct (String.eqb_spec (id i) (id j)) as [E|E].
      * exfalso. apply Hi. rewrite E. now apply in_map.
      * now rewrite !orb_false_r.
Qed.

Lemma mergeOne_NoDup (l : list Task) (i : Task) :
  NoDup (map id l) -> NoDup (map id (mergeOne l i)).
Proof.
  intros Hnd.
  destruct (in_dec string_dec (id i) (map id l)) as [Hin|Hout].
  - rewrite (mergeOne_present l i Hnd Hin), map_map.
    erewrite map_ext; [exact Hnd|]. intros x. apply replaced_id.
  - rewrite (mergeOne_absent l i Hout), map_app. simpl.
    apply NoDup_app; [exact Hnd | repeat constructor; auto |].
    intros a Ha [<-|[]]. contradiction.
Qed.

Lemma mergedSpec_nil (l : list Task) : mergedSpec l [] = l.
Proof.
  unfold mergedSpec. simpl. rewrite app_nil_r.
  induction l as [|x l IH]; [reflexivity|]. simpl. now rewrite IH.
Qed.

End ImportFacts.

(** C5, as the code has it.  For a local and an imported collection,
    each with pairwise distinct ids: a local task whose id occurs in the
    import stays unless the imported task is strictly newer
    ([updatedAt] local T1, imported T2: the local one is kept when
    T1 >= T2, the imported one replaces it in place when T2 > T1); a local
    task whose id does not occur in the import is unchanged; the imported
    tasks with an id not present locally are appended in their order. *)
Theorem import_merge (existing imported : list Task) :
  NoDup (map id existing) ->
  NoDup (map id imported) ->
  Storage.importData existing imported
  = map (resolved imported) existing ++ filter (isNew existing) imported.
Proof.
  unfold Storage.importData. change (map (resolved imported) existing ++
    filter (isNew existing) imported) with (mergedSpec existing imported).
  revert existing. induction imported as [|i imported IH]; intros existing He Hi.
  - simpl. now rewrite ImportFacts.mergedSpec_nil.
  - simpl fold_left. simpl in Hi. inversion Hi as [|? ? Hout Hrest]; subst.
    rewrite IH; [|now apply ImportFacts.mergeOne_NoDup | exact Hrest].
    now apply ImportFacts.mergedSpec_step.
Qed.

(* ------------------------------------------------------------------ *)
(** ** The projection *)

Module ProjectionFacts.

Lemma substring_of_empty (n : string) : isSubstring n "" -> n = "".
Proof.
  intros [p [s H]]. destruct p; simpl in H; [|discriminate].
  destruct n; [reflexivity | discriminate].
Qed.

Lemma trim_nonempty (q : string) : Str.trim q <> "" -> q <> "".
Proof. intros H ->. now apply H. Qed.

Lemma lower_nonempty (q : string) : q <> "" -> Str.toLowerCase q <> "".
Proof. destruct q; [congruence | discriminate]. Qed.

Lemma searchMatches_spec (query : string) (t : Task) :
  query <> "" ->
  searchMatches query t = true <-> containsQuery query t.
Proof.
  intros Hq. unfold searchMatches, containsQuery.
  rewrite !orb_true_iff, andb_true_iff, existsb_exists.
  rewrite !StrFacts.includes_substring, StrFacts.truthy_spec.
  split.
  - intros [[H|[_ H]]|[tag [Hin H]]]; auto.
    right. right. exists tag. split; [exact Hin|].
    now apply StrFacts.includes_substring.
  - intros [H|[H|[tag [Hin H]]]]; auto.
    + left. right. split; [|exact H].
      intros Hn. rewrite Hn in H. simpl in H.
      now apply substring_of_empty in H.
    + right. exists tag. split; [exact Hin|].
      now apply StrFacts.includes_substring.
Qed.

End ProjectionFacts.

(** C6, as the code has it.  A query that is empty or all white space
    passes every task through.  Any other query is lower-cased but not
    trimmed, and the search filter keeps, in their order, exactly the
    tasks in whose lower-cased title, notes or some tag that query
    occurs, surrounding white space included. *)
Theorem search_filter_spec (q : string) (l : list Task) :
  (Str.trim q = "" -> searchFilter q l = l) /\
  (Str.trim q <> "" ->
   searchFilter q l = filter (searchMatches (Str.toLowerCase q)) l /\
   forall t, In t (searchFilter q l) <->
             In t l /\ containsQuery (Str.toLowerCase q) t).
Proof.
  unfold searchFilter. split.
  - intros H. rewrite H. reflexivity.
  - intros H. apply StrFacts.truthy_spec in H as Ht. rewrite Ht.
    split; [reflexivity|]. intros t. rewrite filter_In.
    rewrite ProjectionFacts.searchMatches_spec; [reflexivity|].
    apply ProjectionFacts.lower_nonempty. now apply ProjectionFacts.trim_nonempty.
Qed.

Section View.

Variable lc : string -> string -> Z.

(** A call of [setState] that carries tasks, a status filter, a search
    query or tag filters leaves an up-to-date view. *)
Lemma setState_recomputes (sm : StateManager) (n : NewState) (a : option Action) :
  touchesProjection n = true ->
  filteredTasks (state (setState lc sm n a))
  = projection lc (state (setState lc sm n a)).
Proof.
  intros H. rewrite setState_state, H. reflexivity.
Qed.

(** A call that carries none of them leaves the view it found. *)
Lemma setState_keeps_view (sm : StateManager) (n : NewState) (a : option Action) :
  touchesProjection n = false ->
  n_filteredTasks n = None ->
  filteredTasks (state (setState lc sm n a)) = filteredTasks (state sm).
Proof.
  intros H Hf. rewrite setState_state, H. simpl. now rewrite Hf.
Qed.

(** [reorderTasks] does not look at [insertAfter]. *)
Lemma reorderTasks_ignores_side (sm : StateManager) (env : Env) (shared : Sharing)
    (draggedTask targetTask : Task) :
  reorderTasks lc sm env shared draggedTask targetTask true
  = reorderTasks lc sm env shared draggedTask targetTask false.
Proof. reflexivity. Qed.

End View.

(** The renumbering of [reorderTasks]: consecutive [order] values from
    the start index, one [updatedAt] for all, everything else kept. *)
Lemma renumber_order (l : list Task) (k : Z) (stamp : Timestamp) :
  map order (renumber l k stamp)
  = map (fun i => k + Z.of_nat i) (seq 0 (List.length l)).
Proof.
  revert k. induction l as [|t l IH]; intros k; [reflexivity|].
  simpl. f_equal; [lia|]. rewrite IH, <- seq_shift, map_map.
  apply map_ext. intros i. lia.
Qed.

Lemma renumber_updatedAt (l : list Task) (k : Z) (stamp : Timestamp) :
  Forall (fun t => updatedAt t = stamp) (renumber l k stamp).
Proof.
  revert k. induction l as [|t l IH]; intros k; simpl; constructor; auto.
Qed.

Lemma renumber_length (l : list Task) (k : Z) (stamp : Timestamp) :
  List.length (renumber l k stamp) = List.length l.
Proof.
  revert k. induction l as [|t l IH]; intros k; simpl; [reflexivity|].
  now rewrite IH.
Qed.

(** Whatever the side, a drop that goes through leaves the [order]
    fields 0, 1, ..., n-1 along the new sequence and stamps every task. *)
Lemma reorderTasks_renumbers (lc : string -> string -> Z) (sm sm' : StateManager)
    (env : Env) (shared : Sharing) (draggedTask targetTask : Task)
    (insertAfter : bool) :
  reorderTasks lc sm env shared draggedTask targetTask insertAfter = (sm', Returned tt) ->
  map order (tasks (state sm'))
  = map Z.of_nat (seq 0 (List.length (tasks (state sm')))) /\
  Forall (fun t => updatedAt t = now env) (tasks (state sm')).
Proof.
  unfold reorderTasks.
  destruct (Arr.splice_remove _ _) as [rest [removed|]]; [|discriminate].
  intros [= <-]. rewrite setState_state. simpl tasks.
  split; [|apply renumber_updatedAt].
  rewrite renumber_order, renumber_length. apply map_ext. intros i. lia.
Qed.

(* ------------------------------------------------------------------ *)
(** ** The sort of the language *)

Module SortFacts.

Section Generic.

Context {A : Type} (cmp : A -> A -> Z).

Let before (a b : A) : Prop := cmp a b <= 0.

Lemma insert_perm (x : A) (l : list A) :
  Permutation (x :: l) (Arr.insert_sorted cmp x l).
Proof.
  induction l as [|y l IH]; simpl; [reflexivity|].
  destruct (cmp x y <=? 0); [reflexivity|].
  rewrite perm_swap. now apply perm_skip.
Qed.

Lemma sort_perm (l : list A) : Permutation l (Arr.sort cmp l).
Proof.
  induction l as [|x l IH]; simpl; [reflexivity|].
  rewrite <- insert_perm. now apply perm_skip.
Qed.

Hypothesis total : forall a b, cmp a b > 0 -> cmp b a <= 0.

Lemma insert_HdRel (x y : A) (l : list A) :
  before y x -> HdRel before y l -> HdRel before y (Arr.insert_sorted cmp x l).
Proof.
  intros Hyx H. destruct l as [|z l]; simpl; [now constructor|].
  destruct (cmp x z <=? 0); constructor; [exact Hyx | now inversion H].
Qed.

Lemma insert_Sorted (x : A) (l : list A) :
  Sorted before l -> Sorted before (Arr.insert_sorted cmp x l).
Proof.
  induction l as [|y l IH]; intros H; simpl; [repeat constructor|].
  inversion H as [|? ? Hl Hy]; subst.
  destruct (Z.leb_spec (cmp x y) 0) as [Hle|Hgt].
  - constructor; [exact H|]. now constructor.
  - constructor; [now apply IH|].
    apply insert_HdRel; [|exact Hy]. apply total. lia.
Qed.

Lemma sort_Sorted (l : list A) : Sorted before (Arr.sort cmp l).
Proof.
  induction l as [|x l IH]; simpl; [constructor|]. now apply insert_Sorted.
Qed.

End Generic.

Lemma Sorted_weaken {A : Type} (R R' : A -> A -> Prop) (l : list A) :
  (forall a b, R a b -> R' a b) -> Sorted R l -> Sorted R' l.
Proof.
  intros HR H. induction H as [|x l Hs IH Hd]; constructor; [exact IH|].
  destruct Hd; constructor. now apply HR.
Qed.

End SortFacts.

(* ------------------------------------------------------------------ *)
(** ** What the view shows, and in which order *)

Section ViewFacts.

Variable lc : string -> string -> Z.

Lemma filter_twice {A : Type} (f g : A -> bool) (l : list A) :
  filter g (filter f l) = filter (fun x => (f x && g x)%bool) l.
Proof.
  induction l as [|x l IH]; simpl; [reflexivity|].
  destruct (f x); simpl; [destruct (g x)|]; now rewrite IH.
Qed.

Lemma filter_all {A : Type} (l : list A) : filter (fun _ => true) l = l.
Proof. induction l as [|x l IH]; simpl; now rewrite ?IH. Qed.

(** The three filters in a row are one filter. *)
Lemma filters_compose (s : State) :
  tagFilter (activeTagFilters s)
    (searchFilter (searchQuery s) (statusFilter (currentFilter s) (tasks s)))
  = filter (passesFilters s) (tasks s).
Proof.
  unfold passesFilters.
  assert (H1 : statusFilter (currentFilter s) (tasks s)
               = filter (fun t => match currentFilter s with
                                  | active => negb (completed t)
                                  | completedOnly => completed t
                                  | all => true
                                  end) (tasks s)).
  { destruct (currentFilter s); simpl; [now rewrite filter_all | reflexivity..]. }
  rewrite H1. clear H1.
  assert (H2 : forall l, searchFilter (searchQuery s) l
               = filter (fun t => if Str.truthy (Str.trim (searchQuery s))
                                  then searchMatches (Str.toLowerCase (searchQuery s)) t
                                  else true) l).
  { intros l. unfold searchFilter.
    destruct (Str.truthy (Str.trim (searchQuery s)));
      [reflexivity | now rewrite filter_all]. }
  rewrite H2, filter_twice. clear H2.
  assert (H3 : forall l, tagFilter (activeTagFilters s) l
               = filter (tagMatches (activeTagFilters s)) l).
  { intros l. unfold tagFilter. destruct (activeTagFilters s); [|reflexivity].
    simpl. now rewrite filter_all. }
  now rewrite H3, filter_twice.
Qed.

Lemma projection_filtered (s : State) :
  Permutation (projection lc s) (filter (passesFilters s) (tasks s)) /\
  (forall t, In t (projection lc s) <-> In t (tasks s) /\ passesFilters s t = true).
Proof.
  assert (HP : Permutation (projection lc s) (filter (passesFilters s) (tasks s))).
  { unfold projection, sortTasks. rewrite filters_compose.
    symmetry. apply SortFacts.sort_perm. }
  split; [exact HP|]. intros t. rewrite <- filter_In.
  split; intros H.
  - now apply (Permutation_in _ HP).
  - now apply (Permutation_in _ (Permutation_sym HP)).
Qed.

(** X5. The view holds exactly the tasks that pass the status
    filter, the search and the tag filters, each as often as the
    collection holds it: sorting neither drops nor repeats a task. *)
Theorem view_is_filtered_tasks (s : State) :
  Permutation (projection lc s) (filter (passesFilters s) (tasks s)) /\
  (forall t, In t (projection lc s) <-> In t (tasks s) /\ passesFilters s t = true).
Proof. exact (projection_filtered s). Qed.

(** X6. Under the filter [active] every task of the view is open, under
    [completed] every task of the view is done; with filter [all], a
    blank query and no tag filter the view is a rearrangement of the
    whole collection. *)
Theorem view_respects_status (s : State) :
  (forall t, In t (projection lc s) ->
     match currentFilter s with
     | active => completed t = false
     | completedOnly => completed t = true
     | all => True
     end) /\
  (currentFilter s = all -> Str.trim (searchQuery s) = "" ->
   activeTagFilters s = [] -> Permutation (projection lc s) (tasks s)).
Proof.
  destruct (projection_filtered s) as [HP Hin]. split.
  - intros t Ht. apply Hin in Ht. destruct Ht as [_ Hp].
    unfold passesFilters in Hp. apply andb_true_iff in Hp. destruct Hp as [Hp _].
    apply andb_true_iff in Hp. destruct Hp as [Hp _].
    destruct (currentFilter s); [exact I | | exact Hp].
    now apply negb_true_iff.
  - intros Hf Hq Ht. rewrite HP.
    assert (Hall : forall t, passesFilters s t = true).
    { intros t. unfold passesFilters. now rewrite Hf, Hq, Ht. }
    rewrite (filter_ext _ (fun _ => true) Hall), filter_all. reflexivity.
Qed.

(** X7. Tag filters are a conjunction: a task stays exactly when every
    active filter equals, up to case, one of the task's tags. *)
Theorem tag_filters_conjunction (filters : list string) (l : list Task) (t : Task) :
  In t (tagFilter filters l) <->
  In t l /\
  forall f, In f filters ->
    exists tag, In tag (tags t) /\ Str.toLowerCase tag = Str.toLowerCase f.
Proof.
  assert (Hm : tagMatches filters t = true <->
               forall f, In f filters ->
                 exists tag, In tag (tags t) /\
                             Str.toLowerCase tag = Str.toLowerCase f).
  { unfold tagMatches. rewrite forallb_forall. split; intros H f Hf.
    - specialize (H f Hf). apply existsb_exists in H.
      destruct H as [tag [Hin He]]. exists tag. split; [exact Hin|].
      now apply String.eqb_eq.
    - destruct (H f Hf) as [tag [Hin He]]. apply existsb_exists.
      exists tag. split; [exact Hin|]. now apply String.eqb_eq. }
  unfold tagFilter. destruct filters as [|f0 fs] eqn:E.
  - split; [intros H; split; [exact H | intros f []] | tauto].
  - rewrite filter_In, Hm. reflexivity.
Qed.

Lemma compare_shownBefore (k : Sort) (a b : Task) :
  compareTasks lc k a b <= 0 <-> shownBefore lc k a b.
Proof.
  unfold compareTasks, shownBefore, orZero. destruct k.
  - lia.
  - destruct (dueAt a), (dueAt b); lia.
  - destruct (Z.eqb_spec (priorityOrder (priority b) - priorityOrder (priority a)) 0);
      lia.
  - reflexivity.
  - destruct (Z.eqb_spec (order a) 0), (Z.eqb_spec (order b) 0); lia.
Qed.

Lemma compare_total (k : Sort) (a b : Task) :
  (k = byTitle -> forall x y, lc x y > 0 -> lc y x <= 0) ->
  compareTasks lc k a b > 0 -> compareTasks lc k b a <= 0.
Proof.
  intros Hlc. unfold compareTasks, orZero. destruct k.
  - lia.
  - destruct (dueAt a), (dueAt b); lia.
  - destruct (Z.eqb_spec (priorityOrder (priority b) - priorityOrder (priority a)) 0),
             (Z.eqb_spec (priorityOrder (priority a) - priorityOrder (priority b)) 0);
      lia.
  - now apply Hlc.
  - destruct (Z.eqb_spec (order a) 0), (Z.eqb_spec (order b) 0); lia.
Qed.

Lemma shownBefore_trans (k : Sort) :
  (k = byTitle -> forall x y z, lc x y <= 0 -> lc y z <= 0 -> lc x z <= 0) ->
  forall a b c, shownBefore lc k a b -> shownBefore lc k b c -> shownBefore lc k a c.
Proof.
  intros Hlc a b c. unfold shownBefore. destruct k.
  - lia.
  - destruct (dueAt a), (dueAt b), (dueAt c); try lia; tauto.
  - lia.
  - now apply Hlc.
  - lia.
Qed.

(** X8. The view is in the order of the sort key: any task shown
    earlier may stand before any task shown later (newest first for
    [created]; dated tasks by due date, undated ones after them newest
    first, for [due]; higher priority first and newest first among equals
    for [priority]; ascending [order] for [manual]).  For [title] this
    holds when the collation of the host is a total preorder. *)
Theorem view_in_sort_order (s : State) :
  (currentSort s = byTitle -> forall x y, lc x y > 0 -> lc y x <= 0) ->
  (currentSort s = byTitle ->
   forall x y z, lc x y <= 0 -> lc y z <= 0 -> lc x z <= 0) ->
  StronglySorted (shownBefore lc (currentSort s)) (projection lc s).
Proof.
  intros Htot Htrans.
  apply Sorted_StronglySorted.
  - intros a b c. now apply shownBefore_trans.
  - unfold projection, sortTasks.
    set (l := tagFilter _ _).
    apply (SortFacts.Sorted_weaken
             (fun a b => compareTasks lc (currentSort s) a b <= 0)).
    + intros a b. apply compare_shownBefore.
    + apply SortFacts.sort_Sorted. intros a b. now apply compare_total.
Qed.

End ViewFacts.

(* ------------------------------------------------------------------ *)
(** ** The mutating operations, one by one *)

Section Operations.

Variable lc : string -> string -> Z.

Lemma tasks_after (sm : StateManager) (l : list Task) (a : option Action) :
  tasks (state (setState lc sm (tasksOnly l) a)) = l.
Proof. now rewrite setState_tasks_state. Qed.

Lemma selection_after (sm : StateManager) (l : list Task) (a : option Action) :
  selectedTasks (state (setState lc sm (tasksOnly l) a)) = selectedTasks (state sm).
Proof. now rewrite setState_tasks_state. Qed.

Lemma length_partition {A : Type} (f : A -> bool) (l : list A) :
  (List.length (filter f l) + List.length (filter (fun x => negb (f x)) l)
   = List.length l)%nat.
Proof.
  induction l as [|x l IH]; simpl; [reflexivity|].
  destruct (f x); simpl; lia.
Qed.

(** X9. [addTask] appends one task and touches no other: the new
    task carries the generated id, the trimmed title (a blank title is
    not rejected and gives an empty one), [completed = false] and the
    clock reading in both time stamps; without an order, or with the
    order 0, it gets the length of the collection as its order.  The view
    is recomputed, and the call records one [ADD_TASK] entry when asked
    to and leaves the log alone otherwise. *)
Theorem addTask_appends (sm : StateManager) (env : Env) (d : TaskData) (b : bool) :
  let task := newTask sm env d in
  let sm' := fst (addTask lc sm env d b) in
  snd (addTask lc sm env d b) = Returned task /\
  tasks (state sm') = tasks (state sm) ++ [task] /\
  filteredTasks (state sm') = projection lc (state sm') /\
  id task = generateId env /\
  title task = Str.trim (d_title d) /\
  completed task = false /\
  createdAt task = now env /\
  updatedAt task = now env /\
  (d_order d = None \/ d_order d = Some 0 ->
   order task = Z.of_nat (List.length (tasks (state sm)))) /\
  (b = true -> historyInRange sm ->
   Arr.at_index (history sm') (historyIndex sm')
   = Some (mkEntry (deepClone (state sm)) (ADD_TASK task))) /\
  (b = false -> logOf sm' = logOf sm).
Proof.
  cbv zeta. unfold addTask. simpl fst. simpl snd.
  split; [reflexivity|]. split; [apply tasks_after|].
  split; [apply setState_tasks_fresh|].
  do 5 (split; [reflexivity|]).
  split.
  { intros [H|H]; unfold newTask; rewrite H; reflexivity. }
  split.
  - intros -> Hr.
    destruct (run_at_end lc sm env (AddTask d) Hr eq_refl) as [_ [_ Hat]].
    unfold run in Hat. rewrite fst_forget in Hat. exact Hat.
  - intros ->. now apply (setState_log_silent lc sm _ None).
Qed.

Lemma deleteTask_tasks (sm : StateManager) (taskId : Id) (b : bool) :
  tasks (state (fst (deleteTask lc sm taskId b)))
  = filter (fun t => negb (String.eqb (id t) taskId)) (tasks (state sm)).
Proof.
  destruct (deleteTask_shape lc sm taskId b) as [_ [Hset _]]. cbv zeta in Hset.
  apply settings_tasks in Hset. rewrite Hset. apply tasks_after.
Qed.

(** X10. [deleteTask] keeps, in their order, exactly the tasks
    with another id, so no task with the id is left, and recomputes the
    view.  When the selection is a [Set] the id is taken out of it and
    the call returns; when the selection is the plain object left by an
    undo, the call raises after the tasks have been replaced. *)
Theorem deleteTask_removes (sm : StateManager) (taskId : Id) (b : bool) :
  let sm' := fst (deleteTask lc sm taskId b) in
  tasks (state sm')
  = filter (fun t => negb (String.eqb (id t) taskId)) (tasks (state sm)) /\
  ~ In taskId (map id (tasks (state sm'))) /\
  (forall t, id t <> taskId ->
     (In t (tasks (state sm')) <-> In t (tasks (state sm)))) /\
  filteredTasks (state sm') = projection lc (state sm') /\
  match selectedTasks (state sm) with
  | SetOf ids =>
      snd (deleteTask lc sm taskId b) = Returned tt /\
      selectedTasks (state sm')
      = SetOf (filter (fun x => negb (String.eqb x taskId)) ids)
  | PlainObject =>
      snd (deleteTask lc sm taskId b) = Thrown /\
      selectedTasks (state sm') = PlainObject
  end.
Proof.
  cbv zeta.
  destruct (deleteTask_shape lc sm taskId b) as [_ [Hset Hview]].
  cbv zeta in Hset, Hview.
  pose proof (deleteTask_tasks sm taskId b) as Ht.
  split; [exact Ht|]. split.
  { rewrite Ht, in_map_iff. intros [t [Hid Hin]].
    apply filter_In in Hin. destruct Hin as [_ Hne].
    apply negb_true_iff in Hne. apply String.eqb_neq in Hne. contradiction. }
  split.
  { intros t Hne. rewrite Ht, filter_In.
    apply String.eqb_neq in Hne. rewrite Hne. simpl. tauto. }
  split.
  { rewrite Hview, (settings_projection lc _ _ Hset). apply setState_tasks_fresh. }
  unfold deleteTask. rewrite selection_after.
  destruct (selectedTasks (state sm)) as [ids|] eqn:E; unfold selection_delete.
  - split; reflexivity.
  - split; [reflexivity|]. cbn [fst]. now rewrite selection_after.
Qed.

(** X11. [clearCompleted] keeps the open tasks in their order and
    returns the number of tasks it removed; it records one
    [CLEAR_COMPLETED] entry with that number even when there was nothing
    to clear. *)
Theorem clearCompleted_effect (sm : StateManager) :
  let sm' := fst (clearCompleted lc sm) in
  let count := List.length (filter (fun t => completed t) (tasks (state sm))) in
  snd (clearCompleted lc sm) = Returned count /\
  tasks (state sm') = filter (fun t => negb (completed t)) (tasks (state sm)) /\
  Forall (fun t => completed t = false) (tasks (state sm')) /\
  (count + List.length (tasks (state sm')) = List.length (tasks (state sm)))%nat /\
  filteredTasks (state sm') = projection lc (state sm') /\
  (historyInRange sm ->
   Arr.at_index (history sm') (historyIndex sm')
   = Some (mkEntry (deepClone (state sm)) (CLEAR_COMPLETED count))).
Proof.
  cbv zeta. unfold clearCompleted. simpl fst. simpl snd.
  split; [reflexivity|]. rewrite tasks_after.
  split; [reflexivity|]. split.
  { apply Forall_forall. intros t Ht. apply filter_In in Ht.
    now apply negb_true_iff. }
  split; [apply length_partition|].
  split; [apply setState_tasks_fresh|].
  intros Hr.
  destruct (run_at_end lc sm (mkEnv "" 0) ClearCompleted Hr eq_refl) as [_ [_ Hat]].
  unfold run in Hat. rewrite fst_forget in Hat. exact Hat.
Qed.

(** The shape of the two bulk updates: the tasks whose id is listed are
    rewritten, the others are the same objects. *)
Lemma bulk_map_ids (ids : list Id) (f : Task -> Task) (l : list Task) :
  (forall t, id (f t) = id t) ->
  map id (map (fun task => if Arr.includes ids (id task) then f task else task) l)
  = map id l.
Proof.
  intros Hf. rewrite map_map. apply map_ext. intros t.
  now destruct (Arr.includes ids (id t)).
Qed.

Lemma bulk_map_twice (ids : list Id) (f : Task -> Task) (l : list Task) :
  (forall t, id (f t) = id t) ->
  (forall t, f (f t) = f t) ->
  let g := fun task => if Arr.includes ids (id task) then f task else task in
  map g (map g l) = map g l.
Proof.
  intros Hid Hff g. rewrite map_map. apply map_ext. intros t. unfold g.
  destruct (Arr.includes ids (id t)) eqn:E; [|now rewrite E].
  now rewrite Hid, E, Hff.
Qed.

(** X12. [bulkComplete] marks every task whose id is listed as
    done and stamps it, also when it was done already, and leaves every
    other task as it is; ids the collection does not hold are ignored.
    The sequence of ids is unchanged, one [BULK_COMPLETE] entry is
    recorded, and a second call with the same list and clock changes no
    task. *)
Theorem bulkComplete_effect (sm : StateManager) (env : Env) (taskIds : list Id) :
  let sm' := fst (bulkComplete lc sm env taskIds) in
  tasks (state sm')
  = map (fun task => if Arr.includes taskIds (id task)
                     then withCompleted task (now env) else task)
        (tasks (state sm)) /\
  map id (tasks (state sm')) = map id (tasks (state sm)) /\
  (forall t, In t (tasks (state sm')) -> In (id t) taskIds ->
     completed t = true /\ updatedAt t = now env) /\
  (forall t, ~ In (id t) taskIds ->
     (In t (tasks (state sm')) <-> In t (tasks (state sm)))) /\
  tasks (state (fst (bulkComplete lc sm' env taskIds))) = tasks (state sm') /\
  (historyInRange sm ->
   Arr.at_index (history sm') (historyIndex sm')
   = Some (mkEntry (deepClone (state sm)) (BULK_COMPLETE taskIds))).
Proof.
  assert (Hmap : forall m, tasks (state (fst (bulkComplete lc m env taskIds)))
               = map (fun task => if Arr.includes taskIds (id task)
                                  then withCompleted task (now env) else task)
                     (tasks (state m))).
  { intros m. unfold bulkComplete. cbn [fst]. apply tasks_after. }
  cbv zeta. rewrite !Hmap.
  assert (Hinc : forall x, Arr.includes taskIds x = true <-> In x taskIds).
  { intros x. unfold Arr.includes. rewrite existsb_exists. split.
    - intros [y [Hy He]]. apply String.eqb_eq in He. now subst.
    - intros H. exists x. split; [exact H | apply String.eqb_refl]. }
  split; [reflexivity|].
  split; [now apply bulk_map_ids|].
  split.
  { intros t Ht Hid. apply in_map_iff in Ht. destruct Ht as [t0 [He Hin]].
    destruct (Arr.includes taskIds (id t0)) eqn:E.
    - subst t. split; reflexivity.
    - subst t. apply Hinc in Hid. congruence. }
  split.
  { intros t Hid. rewrite in_map_iff. split.
    - intros [t0 [He Hin]].
      destruct (Arr.includes taskIds (id t0)) eqn:E; [|now subst].
      subst t. simpl in Hid. apply Hinc in E. contradiction.
    - intros Hin. exists t. split; [|exact Hin].
      destruct (Arr.includes taskIds (id t)) eqn:E; [|reflexivity].
      apply Hinc in E. contradiction. }
  split.
  { now apply (bulk_map_twice taskIds (fun t => withCompleted t (now env))). }
  intros Hr.
  exact (proj2 (proj2 (run_at_end lc sm env (BulkComplete taskIds) Hr eq_refl))).
Qed.

(** X13. [bulkSetPriority] gives every task whose id is listed the
    priority and the clock reading, leaves every other task as it is and
    keeps the sequence of ids; one [BULK_SET_PRIORITY] entry is
    recorded. *)
Theorem bulkSetPriority_effect (sm : StateManager) (env : Env)
    (taskIds : list Id) (p : Priority) :
  let sm' := fst (bulkSetPriority lc sm env taskIds p) in
  map id (tasks (state sm')) = map id (tasks (state sm)) /\
  (forall t, In t (tasks (state sm')) -> In (id t) taskIds ->
     priority t = p /\ updatedAt t = now env) /\
  (forall t, ~ In (id t) taskIds ->
     (In t (tasks (state sm')) <-> In t (tasks (state sm)))) /\
  (historyInRange sm ->
   Arr.at_index (history sm') (historyIndex sm')
   = Some (mkEntry (deepClone (state sm)) (BULK_SET_PRIORITY taskIds p))).
Proof.
  assert (Hmap : tasks (state (fst (bulkSetPriority lc sm env taskIds p)))
               = map (fun task => if Arr.includes taskIds (id task)
                                  then withPriority task p (now env) else task)
                     (tasks (state sm))).
  { unfold bulkSetPriority. cbn [fst]. apply tasks_after. }
  cbv zeta. rewrite !Hmap.
  assert (Hinc : forall x, Arr.includes taskIds x = true <-> In x taskIds).
  { intros x. unfold Arr.includes. rewrite existsb_exists. split.
    - intros [y [Hy He]]. apply String.eqb_eq in He. now subst.
    - intros H. exists x. split; [exact H | apply String.eqb_refl]. }
  split; [now apply bulk_map_ids|].
  split.
  { intros t Ht Hid. apply in_map_iff in Ht. destruct Ht as [t0 [He Hin]].
    destruct (Arr.includes taskIds (id t0)) eqn:E.
    - subst t. split; reflexivity.
    - subst t. apply Hinc in Hid. congruence. }
  split.
  { intros t Hid. rewrite in_map_iff. split.
    - intros [t0 [He Hin]].
      destruct (Arr.includes taskIds (id t0)) eqn:E; [|now subst].
      subst t. simpl in Hid. apply Hinc in E. contradiction.
    - intros Hin. exists t. split; [|exact Hin].
      destruct (Arr.includes taskIds (id t)) eqn:E; [|reflexivity].
      apply Hinc in E. contradiction. }
  intros Hr.
  exact (proj2 (proj2 (run_at_end lc sm env (BulkSetPriority taskIds p) Hr eq_refl))).
Qed.

Lemma deletes_one_by_one (taskIds : list Id) (sm : StateManager) :
  tasks (state (fold_left (fun m i => fst (deleteTask lc m i true)) taskIds sm))
  = filter (fun t => negb (Arr.includes taskIds (id t))) (tasks (state sm)).
Proof.
  revert sm. induction taskIds as [|i ids IH]; intros sm; simpl fold_left.
  - simpl. now rewrite filter_all.
  - rewrite IH, deleteTask_tasks, filter_twice. apply filter_ext. intros t.
    unfold Arr.includes. simpl existsb. now rewrite negb_orb.
Qed.

(** X14. [bulkDelete] leaves the same tasks as deleting the listed
    ids one after the other: exactly the tasks whose id is not listed, in
    their order.  It records one [BULK_DELETE] entry for the whole list.
    With a [Set] as selection the listed ids leave the selection; with
    the plain object left by an undo the call raises after the tasks have
    been replaced, unless the list is empty. *)
Theorem bulkDelete_as_deletes (sm : StateManager) (taskIds : list Id) :
  let sm' := fst (bulkDelete lc sm taskIds) in
  let oneByOne := fold_left (fun m i => fst (deleteTask lc m i true)) taskIds sm in
  tasks (state sm')
  = filter (fun t => negb (Arr.includes taskIds (id t))) (tasks (state sm)) /\
  tasks (state sm') = tasks (state oneByOne) /\
  (forall i, In i taskIds -> ~ In i (map id (tasks (state sm')))) /\
  (historyInRange sm ->
   Arr.at_index (history sm') (historyIndex sm')
   = Some (mkEntry (deepClone (state sm)) (BULK_DELETE taskIds))) /\
  (selectedTasks (state sm) = PlainObject -> taskIds <> [] ->
   snd (bulkDelete lc sm taskIds) = Thrown) /\
  (forall ids, selectedTasks (state sm) = SetOf ids ->
   snd (bulkDelete lc sm taskIds) = Returned tt /\
   selectedTasks (state sm')
   = SetOf (filter (fun x => negb (Arr.includes taskIds x)) ids)).
Proof.
  cbv zeta.
  destruct (bulkDelete_shape lc sm taskIds) as [_ [Hset _]]. cbv zeta in Hset.
  assert (Ht : tasks (state (fst (bulkDelete lc sm taskIds)))
               = filter (fun t => negb (Arr.includes taskIds (id t)))
                        (tasks (state sm))).
  { apply settings_tasks in Hset. rewrite Hset. apply tasks_after. }
  split; [exact Ht|].
  split; [now rewrite deletes_one_by_one|].
  split.
  { intros i Hi. rewrite Ht, in_map_iff. intros [t [Hid Hin]].
    apply filter_In in Hin. destruct Hin as [_ Hne].
    apply negb_true_iff in Hne. unfold Arr.includes in Hne.
    assert (Hex : existsb (String.eqb (id t)) taskIds = true).
    { apply existsb_exists. exists i. split; [exact Hi|].
      rewrite Hid. apply String.eqb_refl. }
    congruence. }
  split.
  { intros Hr.
    exact (proj2 (proj2 (run_at_end lc sm (mkEnv "" 0) (BulkDelete taskIds) Hr eq_refl))). }
  split.
  - intros Hsel Hne. unfold bulkDelete. rewrite selection_after, Hsel.
    destruct taskIds as [|i rest]; [congruence | reflexivity].
  - intros ids Hsel. unfold bulkDelete. rewrite selection_after, Hsel.
    assert (Hall : forall l acc,
              selection_deleteAll (SetOf acc) l
              = Returned (SetOf (filter (fun x => negb (Arr.includes l x)) acc))).
    { clear. induction l as [|i l IH]; intros acc; simpl.
      - now rewrite filter_all.
      - rewrite IH, filter_twice. do 2 f_equal. apply filter_ext. intros x.
        unfold Arr.includes. simpl existsb. now rewrite negb_orb. }
    rewrite Hall. split; reflexivity.
Qed.

(** X2. What [undo] can reach is a stack of at most 10 entries: a
    recorded command puts its entry (the snapshot of the state it found,
    and its descriptor) on top, and when that makes eleven the oldest
    entry falls off the bottom. *)
Theorem record_pushes (sm : StateManager) (env : Env) (c : Command) :
  logInvariant sm ->
  isRecorded sm c = true ->
  undoable (fst (run lc sm env c))
  = lastn 10 (undoable sm
              ++ [mkEntry (deepClone (state sm)) (descriptor sm env c)]).
Proof.
  intros [Hr Hb] Hrec.
  destruct (run_log lc sm env c Hrec) as [_ HL].
  pose proof (HistoryFacts.kept_length sm Hr) as HK.
  unfold undoable, lastn. unfold kept at 1.
  unfold logOf in HL. injection HL as Hh Hi. rewrite Hh, Hi. clear Hh Hi.
  set (e := mkEntry (deepClone (state sm)) (descriptor sm env c)).
  assert (Hlen : (List.length (kept sm) <= List.length (history sm))%nat).
  { unfold kept. rewrite length_firstn. lia. }
  unfold historySize in Hb.
  destruct (Z.lt_ge_cases (historyIndex sm + 1) historySize) as [Hroom|Hfull].
  - unfold e at 1.
    rewrite (HistoryFacts.addToHistory_room sm _ _ Hr Hroom). cbn [history historyIndex].
    fold e. unfold historySize in Hroom.
    rewrite firstn_all2 by (rewrite length_app; simpl; lia).
    rewrite length_app. simpl List.length.
    replace (List.length (kept sm) + 1 - 10)%nat with 0%nat by lia.
    reflexivity.
  - unfold e at 1.
    rewrite (HistoryFacts.addToHistory_full sm _ _ Hr Hfull). cbn [history historyIndex].
    fold e. unfold historySize in Hfull.
    rewrite firstn_all2 by (rewrite HistoryFacts.length_tl_app; lia).
    rewrite length_app. simpl List.length.
    replace (List.length (kept sm) + 1 - 10)%nat with 1%nat by lia.
    now destruct (kept sm ++ [e]).
Qed.

(** X3. [undo] takes the top entry off that stack and makes its
    snapshot the state, with the view recomputed; the log itself keeps
    all its entries.  On the empty stack [undo] returns [false] and
    changes nothing. *)
Theorem undo_pops (sm : StateManager) :
  historyInRange sm ->
  (undoable sm = [] -> undo lc sm = (sm, Returned false)) /\
  (forall rest e, undoable sm = rest ++ [e] ->
     snd (undo lc sm) = Returned true /\
     state (fst (undo lc sm)) = updateFilteredTasks lc (prevState e) /\
     undoable (fst (undo lc sm)) = rest /\
     history (fst (undo lc sm)) = history sm).
Proof.
  intros Hr. pose proof (HistoryFacts.kept_length sm Hr) as HK.
  unfold undoable. split.
  - intros H. rewrite H in HK. simpl in HK. apply undo_nothing. lia.
  - intros rest e H. rewrite H, length_app in HK. simpl List.length in HK.
    destruct (undo_step lc sm Hr ltac:(lia)) as [e' [He' Hu]].
    assert (Hidx : Z.to_nat (historyIndex sm) = List.length rest) by lia.
    assert (He : e' = e).
    { unfold Arr.at_index in He'.
      destruct (Z.ltb_spec (historyIndex sm) 0); [lia|].
      rewrite Hidx in He'.
      rewrite <- (firstn_skipn (Z.to_nat (historyIndex sm + 1)) (history sm)) in He'.
      fold (kept sm) in He'. rewrite H in He'.
      rewrite nth_error_app1 in He' by (rewrite length_app; simpl; lia).
      rewrite nth_error_app2, Nat.sub_diag in He' by lia.
      simpl in He'. congruence. }
    subst e'. rewrite Hu. cbn [fst snd state history].
    split; [reflexivity|]. split; [reflexivity|]. split; [|reflexivity].
    unfold kept. cbn [history historyIndex].
    replace (Z.to_nat (historyIndex sm - 1 + 1)) with (List.length rest) by lia.
    assert (Hk : firstn (List.length rest) (kept sm) = rest).
    { rewrite H, firstn_app, Nat.sub_diag, firstn_all. simpl.
      now rewrite app_nil_r. }
    etransitivity; [|exact Hk]. unfold kept. rewrite firstn_firstn.
    f_equal. lia.
Qed.

(** X4. [undo] followed by [redo] puts the position counter back
    and leaves the entries of the log as they were: neither of the two
    records anything. *)
Theorem undo_then_redo_log (sm : StateManager) (env : Env) :
  historyInRange sm ->
  0 <= historyIndex sm ->
  logOf (fst (redo lc (fst (undo lc sm)) env)) = logOf sm /\
  snd (undo lc sm) = Returned true /\
  snd (redo lc (fst (undo lc sm)) env) <> Returned false.
Proof.
  intros Hr H0. destruct (undo_step lc sm Hr H0) as [e [He Hu]].
  rewrite Hu. cbn [fst snd]. unfold redo. cbn [history historyIndex state].
  destruct Hr as [Hlo Hhi].
  destruct (Z.ltb_spec (historyIndex sm - 1)
                       (Z.of_nat (List.length (history sm)) - 1)); [|lia].
  replace (historyIndex sm - 1 + 1) with (historyIndex sm) by lia.
  rewrite He.
  pose proof (executeAction_log lc
                (mkSM (updateFilteredTasks lc (prevState e)) (history sm)
                      (historyIndex sm)) env (action e)) as HL.
  destruct (executeAction lc _ env (action e)) as [x [u|]]; cbn [fst snd] in *;
    (split; [exact HL|]); split; try reflexivity; discriminate.
Qed.

End Operations.

(* ------------------------------------------------------------------ *)
(** ** Tags: the tag list of the collection, the tag fields of the forms *)

Module TagFacts.

Lemma compare_le_trans (s1 s2 s3 : string) :
  String.compare s1 s2 <> Gt -> String.compare s2 s3 <> Gt ->
  String.compare s1 s3 <> Gt.
Proof.
  revert s2 s3. induction s1 as [|a s1 IH]; intros [|b s2] [|c s3]; simpl;
    try congruence.
  unfold Ascii.compare.
  destruct (N.compare_spec (N_of_ascii a) (N_of_ascii b)) as [E1|L1|G1];
    destruct (N.compare_spec (N_of_ascii b) (N_of_ascii c)) as [E2|L2|G2];
    destruct (N.compare_spec (N_of_ascii a) (N_of_ascii c)) as [E3|L3|G3];
    try congruence; try lia.
  apply IH.
Qed.

Lemma leb_compare (a b : string) : String.leb a b = true <-> String.compare a b <> Gt.
Proof. unfold String.leb. destruct (String.compare a b); split; congruence. Qed.

Lemma defaultCompare_leb (a b : string) :
  defaultCompare a b <= 0 <-> String.leb a b = true.
Proof.
  unfold defaultCompare, String.leb. destruct (String.compare a b); split;
    intros H; try reflexivity; try lia; discriminate.
Qed.

Lemma defaultCompare_total (a b : string) :
  defaultCompare a b > 0 -> defaultCompare b a <= 0.
Proof.
  unfold defaultCompare. rewrite (String.compare_antisym b a).
  destruct (String.compare a b); simpl; lia.
Qed.

Lemma includes_In (l : list string) (x : string) :
  Arr.includes l x = true <-> In x l.
Proof.
  unfold Arr.includes. rewrite existsb_exists. split.
  - intros [y [Hy He]]. apply String.eqb_eq in He. now subst.
  - intros H. exists x. split; [exact H | apply String.eqb_refl].
Qed.

Lemma setAdd_spec (acc : list string) (x : string) :
  NoDup acc ->
  NoDup (setAdd acc x) /\ (forall y, In y (setAdd acc x) <-> In y acc \/ y = x).
Proof.
  intros Hnd. unfold setAdd. destruct (Arr.includes acc x) eqn:E.
  - apply includes_In in E. split; [exact Hnd|]. intros y. split; [tauto|].
    intros [H | ->]; assumption.
  - assert (Hx : ~ In x acc).
    { intros H. apply includes_In in H. congruence. }
    split.
    + apply NoDup_app; [exact Hnd | repeat constructor; auto |].
      intros a Ha [<-|[]]. contradiction.
    + intros y. rewrite in_app_iff. simpl. intuition congruence.
Qed.

Lemma addAll_spec (xs acc : list string) :
  NoDup acc ->
  NoDup (fold_left setAdd xs acc) /\
  (forall y, In y (fold_left setAdd xs acc) <-> In y acc \/ In y xs).
Proof.
  revert acc. induction xs as [|x xs IH]; intros acc Hnd; simpl.
  - split; [exact Hnd|]. intros y. tauto.
  - destruct (setAdd_spec acc x Hnd) as [Hnd' Hin'].
    destruct (IH (setAdd acc x) Hnd') as [Hnd'' Hin''].
    split; [exact Hnd''|]. intros y. rewrite Hin'', Hin'. intuition congruence.
Qed.

Lemma collect_spec (l : list Task) (acc : list string) :
  NoDup acc ->
  let r := fold_left (fun tagSet task => fold_left setAdd (tags task) tagSet) l acc in
  NoDup r /\
  (forall y, In y r <-> In y acc \/ exists t, In t l /\ In y (tags t)).
Proof.
  revert acc. induction l as [|t l IH]; intros acc Hnd; simpl.
  - split; [exact Hnd|]. intros y. split; [tauto|].
    intros [H|[t [[] _]]]. exact H.
  - destruct (addAll_spec (tags t) acc Hnd) as [Hnd' Hin'].
    destruct (IH _ Hnd') as [Hnd'' Hin''].
    split; [exact Hnd''|]. intros y. rewrite Hin'', Hin'. split.
    + intros [[H|H]|[t' [Ht' Hy]]]; eauto.
    + intros [H|[t' [[<-|Ht'] Hy]]]; eauto.
Qed.

(** The characters of a string. *)
Lemma trimStart_chars (c : ascii) (s : string) :
  In c (list_ascii_of_string (Str.trimStart s)) -> In c (list_ascii_of_string s).
Proof.
  induction s as [|d s IH]; simpl; [tauto|].
  destruct (Str.isWhiteSpace d); simpl; tauto.
Qed.

Lemma trimEnd_chars (c : ascii) (s : string) :
  In c (list_ascii_of_string (Str.trimEnd s)) -> In c (list_ascii_of_string s).
Proof.
  induction s as [|d s IH]; simpl; [tauto|].
  destruct (Str.trimEnd s) as [|e r].
  - destruct (Str.isWhiteSpace d); simpl; tauto.
  - simpl in *. tauto.
Qed.

Lemma trim_chars (c : ascii) (s : string) :
  In c (list_ascii_of_string (Str.trim s)) -> In c (list_ascii_of_string s).
Proof. intros H. now apply trimStart_chars, trimEnd_chars. Qed.

Lemma split_no_comma (s piece : string) :
  In piece (UI.split s) -> ~ In UI.comma (list_ascii_of_string piece).
Proof.
  revert piece. induction s as [|c s IH]; intros piece; simpl.
  - intros [<-|[]]. simpl. tauto.
  - destruct (Ascii.eqb_spec c UI.comma) as [E|E].
    + intros [<-|H]; [simpl; tauto | now apply IH].
    + destruct (UI.split s) as [|p rest].
      * intros [<-|[]]. simpl. intuition congruence.
      * intros [<-|H].
        -- simpl. intros [H|H]; [congruence|].
           revert H. apply IH. now left.
        -- apply IH. now right.
Qed.

Lemma parseTags_In (text tag : string) :
  In tag (UI.parseTags text) ->
  tag <> "" /\
  Str.trim tag = tag /\
  ~ In UI.comma (list_ascii_of_string tag) /\
  exists piece, In piece (UI.split text) /\ tag = Str.trim piece.
Proof.
  unfold UI.parseTags. intros H. apply filter_In in H. destruct H as [Hin Ht].
  apply in_map_iff in Hin. destruct Hin as [piece [<- Hp]].
  split; [now apply StrFacts.truthy_spec|].
  split; [apply StrFacts.trim_idem|].
  split; [|now exists piece].
  intros Hc. apply trim_chars in Hc.
  now apply (split_no_comma text piece).
Qed.

End TagFacts.

(** X15. [getAllTags] lists exactly the tags that occur on some
    task, each once, in ascending code-unit order. *)
Theorem getAllTags_spec (s : State) :
  NoDup (getAllTags s) /\
  (forall tag, In tag (getAllTags s) <->
               exists t, In t (tasks s) /\ In tag (tags t)) /\
  StronglySorted (fun a b => String.leb a b = true) (getAllTags s).
Proof.
  unfold getAllTags.
  set (collected := fold_left _ (tasks s) []).
  destruct (TagFacts.collect_spec (tasks s) [] (NoDup_nil _)) as [Hnd Hin].
  fold collected in Hnd, Hin. cbv zeta in Hnd, Hin.
  pose proof (SortFacts.sort_perm defaultCompare collected) as HP.
  split; [exact (Permutation_NoDup HP Hnd)|]. split.
  - intros tag. split; intros H.
    + apply (Permutation_in _ (Permutation_sym HP)) in H. apply Hin in H.
      destruct H as [[]|H]. exact H.
    + apply (Permutation_in _ HP). apply Hin. now right.
  - apply Sorted_StronglySorted.
    + intros a b c Hab Hbc. apply TagFacts.leb_compare.
      apply (TagFacts.compare_le_trans a b c); now apply TagFacts.leb_compare.
    + apply (SortFacts.Sorted_weaken (fun a b => defaultCompare a b <= 0)).
      * intros a b. apply TagFacts.defaultCompare_leb.
      * apply SortFacts.sort_Sorted. exact TagFacts.defaultCompare_total.
Qed.

(** X16. Every tag that the add form or the edit form reads
    from its tags field is non-empty, has no white space at either end
    and holds no comma; the tags are the non-blank pieces between the
    commas, trimmed, in their order. *)
Theorem parseTags_clean (text tag : string) :
  In tag (UI.parseTags text) ->
  tag <> "" /\
  Str.trim tag = tag /\
  ~ In UI.comma (list_ascii_of_string tag) /\
  exists piece, In piece (UI.split text) /\ tag = Str.trim piece.
Proof. exact (TagFacts.parseTags_In text tag). Qed.

(** X18. For weekday numbers 0..6, the day count that
    [parseNaturalDate] adds lies between 1 and 7 and lands on the weekday
    named: a date one to seven days ahead, never today (the weekday of
    today gives 7). *)
Theorem daysUntilTarget_spec (targetDay currentDay : Z) :
  0 <= targetDay <= 6 ->
  0 <= currentDay <= 6 ->
  1 <= UI.daysUntilTarget targetDay currentDay <= 7 /\
  (currentDay + UI.daysUntilTarget targetDay currentDay) mod 7 = targetDay /\
  (targetDay = currentDay -> UI.daysUntilTarget targetDay currentDay = 7).
Proof.
  intros Ht Hc. unfold UI.daysUntilTarget.
  rewrite Z.rem_mod_nonneg by lia.
  assert (Hr : 0 <= (targetDay - currentDay + 7) mod 7 < 7)
    by (apply Z.mod_pos_bound; lia).
  destruct (Z.eqb_spec ((targetDay - currentDay + 7) mod 7) 0) as [E|E].
  - assert (targetDay = currentDay).
    { apply Z.mod_divide in E; [|lia]. destruct E as [k Hk]. lia. }
    subst. split; [lia|]. split; [|reflexivity].
    rewrite <- (Z.mul_1_l 7) at 1. rewrite Z.mod_add by lia.
    apply Z.mod_small. lia.
  - split; [lia|]. split; [|intros ->; exfalso; apply E;
                            replace (currentDay - currentDay + 7) with (1 * 7) by lia;
                            apply Z.mod_mul; lia].
    rewrite Z.add_mod_idemp_r by lia.
    replace (currentDay + (targetDay - currentDay + 7)) with (targetDay + 1 * 7) by lia.
    rewrite Z.mod_add by lia. apply Z.mod_small. lia.
Qed.

(* ------------------------------------------------------------------ *)
(** ** The add form and the tag-filter chips *)

Section Forms.

Variable lc : string -> string -> Z.

(** X17. The add form does nothing on a blank title: no task, no
    history entry, the same state manager.  On any other title it adds
    exactly one task, whose title is the trimmed, non-empty input and
    whose tags are all non-empty, trimmed and free of commas. *)
Theorem handleAddTask_validates (sm : StateManager) (env : Env)
    (titleInput : string) (finalDueDate : option Timestamp)
    (prioritySelect : Priority) (tagsInput : string) :
  let r := UI.handleAddTask lc sm env titleInput finalDueDate prioritySelect tagsInput in
  (Str.trim titleInput = "" -> r = (sm, None)) /\
  (Str.trim titleInput <> "" ->
   exists task,
     snd r = Some task /\
     tasks (state (fst r)) = tasks (state sm) ++ [task] /\
     title task = Str.trim titleInput /\
     title task <> "" /\
     dueAt task = finalDueDate /\
     priority task = prioritySelect /\
     completed task = false /\
     Forall (fun tag => tag <> "" /\ Str.trim tag = tag /\
                        ~ In UI.comma (list_ascii_of_string tag))
            (tags task)).
Proof.
  cbv zeta. unfold UI.handleAddTask. split.
  - intros H. rewrite H. reflexivity.
  - intros H. apply StrFacts.truthy_spec in H as Ht. rewrite Ht. cbn [negb].
    set (tagList := if Str.truthy (Str.trim tagsInput)
                    then UI.parseTags (Str.trim tagsInput) else []).
    set (d := mkTaskData (Str.trim titleInput) None finalDueDate
                         (Some prioritySelect) (Some tagList) None None).
    unfold addTask. cbn [fst snd]. exists (newTask sm env d).
    split; [reflexivity|]. split; [apply tasks_after|].
    assert (Htitle : title (newTask sm env d) = Str.trim titleInput).
    { unfold newTask, d. cbn [title d_title]. apply StrFacts.trim_idem. }
    split; [exact Htitle|]. split; [now rewrite Htitle|].
    do 3 (split; [reflexivity|]).
    unfold newTask, d. cbn [tags d_tags orElse]. unfold tagList.
    destruct (Str.truthy (Str.trim tagsInput)); [|constructor].
    apply Forall_forall. intros tag Hin.
    destruct (TagFacts.parseTags_In _ _ Hin) as [H1 [H2 [H3 _]]]. auto.
Qed.

Lemma filters_after (sm : StateManager) (l : list string) :
  activeTagFilters (state (setState lc sm (UI.tagFiltersOnly l) None)) = l /\
  tasks (state (setState lc sm (UI.tagFiltersOnly l) None)) = tasks (state sm) /\
  currentFilter (state (setState lc sm (UI.tagFiltersOnly l) None))
  = currentFilter (state sm) /\
  searchQuery (state (setState lc sm (UI.tagFiltersOnly l) None))
  = searchQuery (state sm) /\
  filteredTasks (state (setState lc sm (UI.tagFiltersOnly l) None))
  = projection lc (state (setState lc sm (UI.tagFiltersOnly l) None)) /\
  logOf (setState lc sm (UI.tagFiltersOnly l) None) = logOf sm.
Proof.
  rewrite setState_state. cbn [touchesProjection UI.tagFiltersOnly n_tasks
    n_currentFilter n_searchQuery n_activeTagFilters].
  repeat split.
Qed.

(** X19. Adding a tag filter that is already there changes
    nothing, so a duplicate-free filter list stays duplicate-free and
    adding twice is adding once; after adding, the tag is among the
    filters.  Removing takes out every occurrence, and removing a tag
    right after adding it to a list that did not have it gives the list
    back.  Neither call touches the tasks or the history. *)
Theorem tag_filter_edits (sm : StateManager) (tag : string) :
  let added := UI.addTagFilter lc sm tag in
  let removed := UI.removeTagFilter lc sm tag in
  In tag (activeTagFilters (state added)) /\
  (NoDup (activeTagFilters (state sm)) -> NoDup (activeTagFilters (state added))) /\
  UI.addTagFilter lc added tag = added /\
  ~ In tag (activeTagFilters (state removed)) /\
  (~ In tag (activeTagFilters (state sm)) ->
   activeTagFilters (state (UI.removeTagFilter lc added tag))
   = activeTagFilters (state sm)) /\
  tasks (state added) = tasks (state sm) /\
  tasks (state removed) = tasks (state sm) /\
  logOf added = logOf sm /\
  logOf removed = logOf sm.
Proof.
  cbv zeta.
  assert (Hadd : In tag (activeTagFilters (state (UI.addTagFilter lc sm tag)))).
  { unfold UI.addTagFilter.
    destruct (Arr.includes (activeTagFilters (state sm)) tag) eqn:E.
    - now apply TagFacts.includes_In.
    - destruct (filters_after sm (activeTagFilters (state sm) ++ [tag])) as [-> _].
      apply in_or_app. right. now left. }
  split; [exact Hadd|]. split.
  { intros Hnd. unfold UI.addTagFilter.
    destruct (Arr.includes (activeTagFilters (state sm)) tag) eqn:E; [exact Hnd|].
    destruct (filters_after sm (activeTagFilters (state sm) ++ [tag])) as [-> _].
    apply NoDup_app; [exact Hnd | repeat constructor; auto |].
    intros a Ha [<-|[]]. apply TagFacts.includes_In in Ha. congruence. }
  split.
  { unfold UI.addTagFilter at 1. apply TagFacts.includes_In in Hadd.
    now rewrite Hadd. }
  split.
  { unfold UI.removeTagFilter.
    destruct (filters_after sm (filter (fun t => negb (String.eqb t tag))
                                       (activeTagFilters (state sm)))) as [-> _].
    intros H. apply filter_In in H. destruct H as [_ H].
    now rewrite String.eqb_refl in H. }
  split.
  { intros Hout. unfold UI.removeTagFilter.
    match goal with
    | |- activeTagFilters (state (setState lc ?m (UI.tagFiltersOnly ?l) None)) = _ =>
        destruct (filters_after m l) as [-> _]
    end.
    unfold UI.addTagFilter.
    assert (E : Arr.includes (activeTagFilters (state sm)) tag = false).
    { destruct (Arr.includes _ tag) eqn:E; [|reflexivity].
      apply TagFacts.includes_In in E. contradiction. }
    rewrite E.
    destruct (filters_after sm (activeTagFilters (state sm) ++ [tag])) as [-> _].
    rewrite filter_app. simpl. rewrite String.eqb_refl. simpl.
    rewrite app_nil_r.
    clear -Hout. induction (activeTagFilters (state sm)) as [|x l IH];
      [reflexivity|]. simpl in *.
    destruct (String.eqb_spec x tag) as [->|Hne]; [tauto|].
    simpl. f_equal. apply IH. tauto. }
  assert (Hkeep : forall l,
            tasks (state (setState lc sm (UI.tagFiltersOnly l) None)) = tasks (state sm) /\
            logOf (setState lc sm (UI.tagFiltersOnly l) None) = logOf sm).
  { intros l. destruct (filters_after sm l) as [_ [H1 [_ [_ [_ H2]]]]]. auto. }
  unfold UI.addTagFilter, UI.removeTagFilter.
  destruct (Arr.includes (activeTagFilters (state sm)) tag);
    repeat split; try reflexivity; apply Hkeep.
Qed.

Lemma tagMatches_fewer (fs gs : list string) (t : Task) :
  (forall f, In f gs -> In f fs) ->
  tagMatches fs t = true -> tagMatches gs t = true.
Proof.
  unfold tagMatches. rewrite !forallb_forall. intros Hsub H f Hf.
  apply H. now apply Hsub.
Qed.

Lemma passes_fewer (s s' : State) (t : Task) :
  tasks s' = tasks s ->
  currentFilter s' = currentFilter s ->
  searchQuery s' = searchQuery s ->
  (forall f, In f (activeTagFilters s') -> In f (activeTagFilters s)) ->
  passesFilters s t = true -> passesFilters s' t = true.
Proof.
  intros _ Hf Hq Hsub. unfold passesFilters. rewrite Hf, Hq.
  rewrite !andb_true_iff. intros [H1 H2]. split; [exact H1|].
  now apply (tagMatches_fewer (activeTagFilters s)).
Qed.

(** X20. On an up-to-date view, adding a tag filter only takes
    tasks away from the view and removing one only brings tasks back:
    every task shown after an add was shown before it, and every task
    shown before a remove is shown after it. *)
Theorem tag_filter_narrows (sm : StateManager) (tag : string) (t : Task) :
  filteredTasks (state sm) = projection lc (state sm) ->
  (In t (filteredTasks (state (UI.addTagFilter lc sm tag))) ->
   In t (filteredTasks (state sm))) /\
  (In t (filteredTasks (state sm)) ->
   In t (filteredTasks (state (UI.removeTagFilter lc sm tag)))).
Proof.
  intros Hfresh. split.
  - unfold UI.addTagFilter.
    destruct (Arr.includes (activeTagFilters (state sm)) tag); [tauto|].
    destruct (filters_after sm (activeTagFilters (state sm) ++ [tag]))
      as [Ha [Ht [Hf [Hq [Hv _]]]]].
    rewrite Hv, Hfresh.
    intros H. apply (projection_filtered lc) in H. destruct H as [Hin Hp].
    apply (projection_filtered lc). rewrite Ht in Hin. split; [exact Hin|].
    revert Hp. apply passes_fewer; auto.
    intros f Hf'. rewrite Ha. apply in_or_app. now left.
  - unfold UI.removeTagFilter.
    match goal with
    | |- _ -> In t (filteredTasks (state (setState lc sm (UI.tagFiltersOnly ?l) None))) =>
        destruct (filters_after sm l) as [Ha [Ht [Hf [Hq [Hv _]]]]]
    end.
    rewrite Hv, Hfresh.
    intros H. apply (projection_filtered lc) in H. destruct H as [Hin Hp].
    apply (projection_filtered lc). rewrite Ht. split; [exact Hin|].
    revert Hp. apply passes_fewer; auto.
    intros f Hf'. rewrite Ha in Hf'. apply filter_In in Hf'. tauto.
Qed.

End Forms.

(* ------------------------------------------------------------------ *)
(** ** The service worker *)

Module ServiceWorkerFacts.

Import ServiceWorker.

Lemma fold_cacheDelete (ks cache : list string) :
  fold_left cacheDelete ks cache
  = filter (fun k => negb (Arr.includes ks k)) cache.
Proof.
  revert cache. induction ks as [|key ks IH]; intros cache; simpl fold_left.
  - simpl. induction cache as [|x l IHl]; simpl; [reflexivity|]. now f_equal.
  - rewrite IH. unfold cacheDelete.
    assert (H : forall (f g : string -> bool) l,
              filter g (filter f l) = filter (fun x => (f x && g x)%bool) l).
    { intros f g l. induction l as [|x l IHl]; simpl; [reflexivity|].
      destruct (f x); simpl; [destruct (g x)|]; now rewrite IHl. }
    rewrite H. apply filter_ext. intros x.
    unfold Arr.includes. simpl existsb. now rewrite negb_orb.
Qed.

Lemma filter_none (ks l : list string) :
  (forall x, In x l -> In x ks) ->
  filter (fun k => negb (Arr.includes ks k)) l = [].
Proof.
  intros H. induction l as [|x l IH]; simpl; [reflexivity|].
  assert (Hx : Arr.includes ks x = true)
    by (apply TagFacts.includes_In, H; now left).
  rewrite Hx. simpl. apply IH. intros y Hy. apply H. now right.
Qed.

Lemma filter_every (ks l : list string) :
  (forall x, In x l -> ~ In x ks) ->
  filter (fun k => negb (Arr.includes ks k)) l = l.
Proof.
  intros H. induction l as [|x l IH]; simpl; [reflexivity|].
  destruct (Arr.includes ks x) eqn:E.
  - apply TagFacts.includes_In in E. exfalso. apply (H x); [now left | exact E].
  - simpl. f_equal. apply IH. intros y Hy. apply H. now right.
Qed.

Lemma filter_shorter {A : Type} (f : A -> bool) (l : list A) :
  (List.length (filter f l) <= List.length l)%nat.
Proof.
  induction l as [|x l IH]; simpl; [lia|]. destruct (f x); simpl; lia.
Qed.

Lemma NoDup_disjoint {A : Type} (l1 l2 : list A) :
  NoDup (l1 ++ l2) -> forall x, In x l2 -> ~ In x l1.
Proof.
  induction l1 as [|y l1 IH]; simpl; intros H x Hx; [tauto|].
  inversion H as [|? ? Hy Hrest]; subst. intros [->|Hin].
  - apply Hy. apply in_or_app. now right.
  - now apply (IH Hrest x).
Qed.

End ServiceWorkerFacts.

(** X23. A request that is not a [GET] gets no answer from the
    worker.  Among the requests it answers, every one whose URL holds a
    slash is served cache-first, because ["/"] is one of the static
    files: so every [GET] of an [http://] or [https://] URL, and the
    network-first and stale-while-revalidate branches are never taken
    for such a URL. *)
Theorem route_is_cache_first :
  (forall method url, method <> "GET" -> ServiceWorker.route method url = None) /\
  (forall method url strategy,
     ServiceWorker.route method url = Some strategy ->
     isSubstring "/" url -> strategy = ServiceWorker.CacheFirst) /\
  (forall rest,
     ServiceWorker.route "GET" (String.append "http://" rest)
     = Some ServiceWorker.CacheFirst) /\
  (forall rest,
     ServiceWorker.route "GET" (String.append "https://" rest)
     = Some ServiceWorker.CacheFirst).
Proof.
  assert (Hstatic : forall url, isSubstring "/" url ->
            existsb (fun file => (ServiceWorker.endsWith url file
                                  || Str.includes url file)%bool)
                    ServiceWorker.STATIC_FILES = true).
  { intros url H. apply StrFacts.includes_substring in H.
    apply existsb_exists. exists "/". split; [now left|].
    rewrite H. apply orb_true_r. }
  split.
  { intros method url H. unfold ServiceWorker.route.
    apply String.eqb_neq in H. now rewrite H. }
  split.
  { intros method url strategy H Hs. unfold ServiceWorker.route in H.
    destruct (negb (String.eqb method "GET")); [discriminate|].
    destruct (negb (ServiceWorker.startsWith url "http")); [discriminate|].
    rewrite (Hstatic url Hs) in H. congruence. }
  split; intros rest; unfold ServiceWorker.route.
  - rewrite Hstatic; [reflexivity|]. exists "http:", (String.append "/" rest).
    reflexivity.
  - rewrite Hstatic; [reflexivity|]. exists "https:", (String.append "/" rest).
    reflexivity.
Qed.

(** X24. After [limitCacheSize] a cache holds at most [maxSize]
    keys; a cache within the limit is left alone; and as the keys of a
    cache are distinct, what is left of a larger cache are its [maxSize]
    newest keys, in their order. *)
Theorem limitCacheSize_bound (cache : list string) (maxSize : Z) :
  0 <= maxSize ->
  Z.of_nat (List.length (ServiceWorker.limitCacheSize cache maxSize)) <= maxSize /\
  (Z.of_nat (List.length cache) <= maxSize ->
   ServiceWorker.limitCacheSize cache maxSize = cache) /\
  (NoDup cache ->
   ServiceWorker.limitCacheSize cache maxSize = lastn (Z.to_nat maxSize) cache).
Proof.
  intros Hmax. unfold ServiceWorker.limitCacheSize, lastn.
  destruct (Z.gtb_spec (Z.of_nat (List.length cache)) maxSize) as [Hgt|Hle].
  - rewrite ServiceWorkerFacts.fold_cacheDelete.
    set (k := (List.length cache - Z.to_nat maxSize)%nat).
    assert (Hslice : Arr.slice0 cache (Z.of_nat (List.length cache) - maxSize)
                     = firstn k cache).
    { unfold Arr.slice0.
      destruct (Z.ltb_spec (Z.of_nat (List.length cache) - maxSize) 0); [lia|].
      f_equal. unfold k. lia. }
    rewrite Hslice. clear Hslice.
    assert (Hk : k = (List.length cache - Z.to_nat maxSize)%nat) by reflexivity.
    clearbody k.
    set (p := fun x => negb (Arr.includes (firstn k cache) x)).
    assert (Hres : filter p cache = filter p (skipn k cache)).
    { transitivity (filter p (firstn k cache ++ skipn k cache));
        [now rewrite firstn_skipn|].
      rewrite filter_app. unfold p at 1.
      now rewrite (ServiceWorkerFacts.filter_none (firstn k cache) (firstn k cache)). }
    rewrite Hres. split.
    { pose proof (ServiceWorkerFacts.filter_shorter p (skipn k cache)) as H.
      rewrite length_skipn in H. lia. }
    split; [lia|].
    intros Hnd. apply ServiceWorkerFacts.filter_every.
    apply ServiceWorkerFacts.NoDup_disjoint. now rewrite firstn_skipn.
  - split; [lia|]. split; [reflexivity|]. intros _.
    replace (List.length cache - Z.to_nat maxSize)%nat with 0%nat by lia.
    reflexivity.
Qed.

(** X25. [cleanupOldCaches] keeps a cache exactly when its name
    does not start with ["todo-app-"] or is the name it was given.  The
    worker calls it with [CACHE_NAME], on activation and in the periodic
    cleanup, while its own caches carry the names [CACHE_NAME-static] and
    [CACHE_NAME-dynamic]: both are deleted whenever they exist. *)
Theorem cleanupOldCaches_spec (cacheNames : list string) (current : string) :
  (forall name, In name (ServiceWorker.cleanupOldCaches cacheNames current) <->
     In name cacheNames /\
     (ServiceWorker.startsWith name "todo-app-" = false \/ name = current)) /\
  ~ In ServiceWorker.STATIC_CACHE_NAME
       (ServiceWorker.cleanupOldCaches cacheNames ServiceWorker.CACHE_NAME) /\
  ~ In ServiceWorker.DYNAMIC_CACHE_NAME
       (ServiceWorker.cleanupOldCaches cacheNames ServiceWorker.CACHE_NAME).
Proof.
  assert (H : forall cur name,
            In name (ServiceWorker.cleanupOldCaches cacheNames cur) <->
            In name cacheNames /\
            (ServiceWorker.startsWith name "todo-app-" = false \/ name = cur)).
  { intros cur name. unfold ServiceWorker.cleanupOldCaches. rewrite filter_In.
    rewrite negb_true_iff, andb_false_iff, negb_false_iff, String.eqb_eq.
    reflexivity. }
  split; [apply H|].
  split; intros Hin; apply H in Hin; destruct Hin as [_ [Hp|He]];
    try (vm_compute in Hp; discriminate Hp);
    vm_compute in He; discriminate He.
Qed.

(* ------------------------------------------------------------------ *)
(** ** More on the import merge *)

Module ImportMore.

Import Storage.

Lemma mergeOne_ids (l : list Task) (i : Task) :
  map id (mergeOne l i)
  = map id l ++ (if existsb (fun x => String.eqb (id x) (id i)) l
                 then [] else [id i]).
Proof.
  induction l as [|x l IH]; [reflexivity|].
  rewrite ImportFacts.mergeOne_cons. simpl existsb. simpl map.
  destruct (String.eqb_spec (id x) (id i)) as [E|E]; simpl.
  - rewrite app_nil_r.
    destruct (updatedAt i >? updatedAt x); simpl; congruence.
  - now rewrite IH.
Qed.

Lemma importData_mergedSpec (existing imported : list Task) :
  NoDup (map id existing) ->
  NoDup (map id imported) ->
  importData existing imported = mergedSpec existing imported.
Proof.
  unfold importData. revert existing.
  induction imported as [|i imported IH]; intros existing He Hi.
  - simpl. now rewrite ImportFacts.mergedSpec_nil.
  - simpl fold_left. simpl in Hi. inversion Hi as [|? ? Hout Hrest]; subst.
    rewrite IH; [|now apply ImportFacts.mergeOne_NoDup | exact Hrest].
    now apply ImportFacts.mergedSpec_step.
Qed.

(** With distinct ids, looking a task up by its id finds that task. *)
Lemma find_self (l : list Task) (x : Task) :
  NoDup (map id l) -> In x l ->
  find (fun i => String.eqb (id i) (id x)) l = Some x.
Proof.
  induction l as [|y l IH]; intros Hnd Hin; [contradiction|]. simpl in *.
  inversion Hnd as [|? ? Hy Hl]; subst.
  destruct Hin as [->|Hin].
  - now rewrite String.eqb_refl.
  - destruct (String.eqb_spec (id y) (id x)) as [E|E].
    + exfalso. apply Hy. rewrite E. now apply in_map.
    + now apply IH.
Qed.

Lemma resolved_self (l : list Task) (x : Task) :
  NoDup (map id l) -> In x l -> resolved l x = x.
Proof.
  intros Hnd Hin. unfold resolved. rewrite (find_self l x Hnd Hin).
  destruct (Z.gtb_spec (updatedAt x) (updatedAt x)); [lia | reflexivity].
Qed.

Lemma resolved_twice (l : list Task) (x : Task) :
  NoDup (map id l) -> resolved l (resolved l x) = resolved l x.
Proof.
  intros Hnd.
  destruct (find (fun i => String.eqb (id i) (id x)) l) as [i|] eqn:E.
  - destruct (updatedAt i >? updatedAt x) eqn:G.
    + assert (Hx : resolved l x = i) by (unfold resolved; now rewrite E, G).
      rewrite Hx. apply resolved_self; [exact Hnd|]. now apply find_some in E.
    + assert (Hx : resolved l x = x) by (unfold resolved; now rewrite E, G).
      now rewrite !Hx.
  - assert (Hx : resolved l x = x) by (unfold resolved; now rewrite E).
    now rewrite !Hx.
Qed.

Lemma resolved_id (l : list Task) (x : Task) : id (resolved l x) = id x.
Proof.
  unfold resolved.
  destruct (find (fun i => String.eqb (id i) (id x)) l) as [i|] eqn:E;
    [|reflexivity].
  destruct (updatedAt i >? updatedAt x); [|reflexivity].
  apply find_some in E. destruct E as [_ E]. now apply String.eqb_eq in E.
Qed.

Lemma filter_nothing {A : Type} (f : A -> bool) (l : list A) :
  (forall x, In x l -> f x = false) -> filter f l = [].
Proof.
  induction l as [|x l IH]; intros H; simpl; [reflexivity|].
  rewrite (H x) by now left. apply IH. intros y Hy. apply H. now right.
Qed.

Lemma importData_NoDup (existing imported : list Task) :
  NoDup (map id existing) -> NoDup (map id (importData existing imported)).
Proof.
  unfold importData. revert existing.
  induction imported as [|i imported IH]; intros existing H; simpl; [exact H|].
  apply IH. now apply ImportFacts.mergeOne_NoDup.
Qed.

End ImportMore.

(** X21. An import never drops or moves a local task: the ids
    of the merged list are the local ids, in their order, followed by ids
    that come from the file and are new.  Local ids that are distinct
    stay distinct in the merged list, whatever the file repeats. *)
Theorem import_keeps_local_ids (existing imported : list Task) :
  (exists extra,
     map id (Storage.importData existing imported) = map id existing ++ extra /\
     forall x, In x extra -> In x (map id imported) /\ ~ In x (map id existing)) /\
  (NoDup (map id existing) ->
   NoDup (map id (Storage.importData existing imported))).
Proof.
  unfold Storage.importData. revert existing.
  induction imported as [|i imported IH]; intros existing.
  - simpl. split; [|tauto]. exists []. rewrite app_nil_r.
    split; [reflexivity | intros x []].
  - simpl fold_left. destruct (IH (Storage.mergeOne existing i)) as [[extra [He Hx]] Hnd].
    pose proof (ImportMore.mergeOne_ids existing i) as Hids.
    split.
    + destruct (existsb (fun x => String.eqb (id x) (id i)) existing) eqn:E.
      * rewrite app_nil_r in Hids. exists extra. rewrite He, Hids.
        split; [reflexivity|]. intros x Hin. destruct (Hx x Hin) as [H1 H2].
        rewrite Hids in H2. simpl. tauto.
      * exists (id i :: extra). rewrite He, Hids, <- app_assoc.
        split; [reflexivity|]. intros x [<-|Hin].
        -- split; [simpl; now left|]. now apply ArrFacts.absent_existsb.
        -- destruct (Hx x Hin) as [H1 H2]. rewrite Hids in H2.
           split; [simpl; now right|]. intros H. apply H2.
           apply in_or_app. now left.
    + intros H. apply Hnd. now apply ImportFacts.mergeOne_NoDup.
Qed.

(** X22. For collections with distinct ids, importing a file
    a second time changes nothing, and importing the local collection
    itself changes nothing. *)
Theorem import_twice (existing imported : list Task) :
  NoDup (map id existing) ->
  NoDup (map id imported) ->
  Storage.importData (Storage.importData existing imported) imported
  = Storage.importData existing imported /\
  Storage.importData existing existing = existing.
Proof.
  intros He Hi. split.
  - assert (Hm : NoDup (map id (Storage.importData existing imported)))
      by (now apply ImportMore.importData_NoDup).
    rewrite (ImportMore.importData_mergedSpec _ imported Hm Hi).
    rewrite (ImportMore.importData_mergedSpec existing imported He Hi).
    unfold mergedSpec at 1.
    rewrite (ImportMore.filter_nothing (isNew (mergedSpec existing imported)) imported).
    + rewrite app_nil_r. unfold mergedSpec. rewrite map_app. f_equal.
      * rewrite map_map. apply map_ext. intros x.
        now apply ImportMore.resolved_twice.
      * rewrite <- (map_id (filter (isNew existing) imported)) at 2.
        apply map_ext_in. intros x Hx. apply filter_In in Hx.
        apply ImportMore.resolved_self; tauto.
    + intros j Hj. destruct (isNew _ j) eqn:E; [|reflexivity].
      apply ImportFacts.isNew_spec in E. exfalso. apply E.
      unfold mergedSpec. rewrite map_app, in_app_iff.
      destruct (isNew existing j) eqn:N.
      * right. apply in_map. apply filter_In. auto.
      * left. rewrite map_map.
        assert (Hin : In (id j) (map id existing)).
        { destruct (in_dec string_dec (id j) (map id existing)) as [H|H];
            [exact H|]. apply ImportFacts.isNew_spec in H. congruence. }
        apply in_map_iff in Hin. destruct Hin as [x [Hid Hx]].
        apply in_map_iff. exists x. split; [|exact Hx].
        rewrite ImportMore.resolved_id. exact Hid.
  - rewrite (ImportMore.importData_mergedSpec existing existing He He).
    unfold mergedSpec.
    rewrite (ImportMore.filter_nothing (isNew existing) existing).
    + rewrite app_nil_r. rewrite <- (map_id existing) at 3.
      apply map_ext_in. intros x Hx. now apply ImportMore.resolved_self.
    + intros j Hj. destruct (isNew existing j) eqn:E; [|reflexivity].
      apply ImportFacts.isNew_spec in E. exfalso. apply E. now apply in_map.
Qed.

(* ------------------------------------------------------------------ *)
(** ** Toggling twice *)

Section Toggle.

Variable lc : string -> string -> Z.

Lemma findIndex_assign {A : Type} (p : A -> bool) (l : list A) (i : nat) (x : A) :
  Arr.findIndex p l = Some i -> p x = true ->
  Arr.findIndex p (Arr.assign l i x) = Some i.
Proof.
  revert i. induction l as [|y l IH]; intros i; simpl; [discriminate|].
  destruct (p y) eqn:Hy.
  - intros [= <-] Hx. simpl. now rewrite Hx.
  - destruct (Arr.findIndex p l) as [k|] eqn:E; simpl; [|discriminate].
    intros [= <-] Hx. simpl. rewrite Hy. now rewrite (IH k eq_refl Hx).
Qed.

Lemma find_at_index {A : Type} (p : A -> bool) (l : list A) (i : nat) :
  Arr.findIndex p l = Some i -> find p l = nth_error l i.
Proof.
  revert i. induction l as [|y l IH]; intros i; simpl; [discriminate|].
  destruct (p y) eqn:Hy.
  - now intros [= <-].
  - destruct (Arr.findIndex p l) as [k|] eqn:E; simpl; [|discriminate].
    intros [= <-]. simpl. now apply IH.
Qed.

Lemma assign_assign {A : Type} (l : list A) (i : nat) (x y : A) :
  Arr.assign (Arr.assign l i x) i y = Arr.assign l i y.
Proof.
  revert i. induction l as [|z l IH]; intros [|i]; simpl; auto.
  now rewrite IH.
Qed.

(** What one toggle does to the tasks. *)
Lemma toggle_tasks (sm : StateManager) (env : Env) (taskId : Id) (b : bool)
    (i : nat) (old : Task) :
  Arr.findIndex (fun t => String.eqb (id t) taskId) (tasks (state sm)) = Some i ->
  nth_error (tasks (state sm)) i = Some old ->
  tasks (state (fst (toggleTaskComplete lc sm env taskId b)))
  = Arr.assign (tasks (state sm)) i
      (applyUpdates old
         (completedKey (negb (completed old)))
         (now env)).
Proof.
  intros Hf Hn. unfold toggleTaskComplete.
  rewrite (find_at_index _ _ _ Hf), Hn.
  unfold updateTask. rewrite Hf, Hn. cbn [fst]. apply tasks_after.
Qed.

(** X27. Toggling a task twice gives back its completion state: the
    tasks are then what an update without fields leaves, the task itself
    with only [updatedAt] moved to the second clock reading, and every
    other task untouched. *)
Theorem toggle_twice (sm : StateManager) (env1 env2 : Env) (taskId : Id) :
  In taskId (map id (tasks (state sm))) ->
  exists i old,
    Arr.findIndex (fun t => String.eqb (id t) taskId) (tasks (state sm)) = Some i /\
    nth_error (tasks (state sm)) i = Some old /\
    let once := fst (toggleTaskComplete lc sm env1 taskId true) in
    let twice := fst (toggleTaskComplete lc once env2 taskId true) in
    tasks (state twice)
    = Arr.assign (tasks (state sm)) i (applyUpdates old noUpdates (now env2)) /\
    (forall t, nth_error (tasks (state once)) i = Some t ->
               completed t = negb (completed old)) /\
    (forall t, nth_error (tasks (state twice)) i = Some t ->
               completed t = completed old /\ title t = title old /\
               createdAt t = createdAt old /\ updatedAt t = now env2).
Proof.
  intros Hin. apply (present_hasTask) in Hin.
  destruct (updateTask_found lc sm env1 taskId noUpdates true Hin)
    as [i [old [Hf [Hn [Hid _]]]]].
  exists i, old. split; [exact Hf|]. split; [exact Hn|]. cbv zeta.
  assert (Hlt : (i < List.length (tasks (state sm)))%nat)
    by (apply nth_error_Some; congruence).
  set (u := completedKey (negb (completed old))).
  set (mid := applyUpdates old u (now env1)).
  pose proof (toggle_tasks sm env1 taskId true i old Hf Hn) as H1.
  fold u in H1. fold mid in H1.
  assert (Hf2 : Arr.findIndex (fun t => String.eqb (id t) taskId)
                  (tasks (state (fst (toggleTaskComplete lc sm env1 taskId true))))
                = Some i).
  { rewrite H1. apply findIndex_assign; [exact Hf|].
    unfold mid. cbn [id applyUpdates]. rewrite Hid. apply String.eqb_refl. }
  assert (Hn2 : nth_error
                  (tasks (state (fst (toggleTaskComplete lc sm env1 taskId true)))) i
                = Some mid).
  { rewrite H1. now apply ArrFacts.assign_same. }
  pose proof (toggle_tasks _ env2 taskId true i mid Hf2 Hn2) as H2.
  assert (Hback : applyUpdates mid
                    (completedKey (negb (completed mid)))
                    (now env2)
                  = applyUpdates old noUpdates (now env2)).
  { unfold mid, u, applyUpdates, noUpdates. cbn. now rewrite negb_involutive. }
  rewrite Hback in H2. rewrite H1, assign_assign in H2.
  split; [exact H2|]. split.
  - intros t Ht. rewrite Hn2 in Ht. injection Ht as <-. reflexivity.
  - intros t Ht. rewrite H2, ArrFacts.assign_same in Ht by exact Hlt.
    injection Ht as <-. repeat split.
Qed.

End Toggle.

(* ------------------------------------------------------------------ *)
(** ** Drag and drop keeps the collection *)

Section Reorder.

Variable lc : string -> string -> Z.

Lemma renumber_same_ids (l : list Task) (k : Z) (stamp : Timestamp) :
  map id (renumber l k stamp) = map id l.
Proof.
  revert k. induction l as [|t l IH]; intros k; simpl; [reflexivity|].
  now rewrite IH.
Qed.

Lemma skipn_at {A : Type} (a : nat) (l : list A) (r : A) :
  nth_error l a = Some r -> skipn a l = r :: skipn (S a) l.
Proof.
  revert l. induction a as [|a IH]; intros [|x l] Hr; simpl in *;
    try discriminate.
  - now injection Hr as ->.
  - now apply IH.
Qed.

Lemma insert_at_perm {A : Type} (b : nat) (rest : list A) (r : A) :
  Permutation (firstn b rest ++ r :: skipn b rest) (r :: rest).
Proof.
  pose proof (Permutation_middle (firstn b rest) (skipn b rest) r) as H.
  rewrite firstn_skipn in H. symmetry. exact H.
Qed.

Lemma remove_at_perm {A : Type} (a : nat) (l : list A) (r : A) :
  nth_error l a = Some r ->
  Permutation (r :: firstn a l ++ skipn (S a) l) l.
Proof.
  intros Hr.
  pose proof (Permutation_middle (firstn a l) (skipn (S a) l) r) as H.
  rewrite <- (skipn_at a l r Hr), firstn_skipn in H. exact H.
Qed.

Lemma splice_perm {A : Type} (l rest : list A) (r : A) (i j : Z) :
  Arr.splice_remove l i = (rest, Some r) ->
  Permutation (Arr.splice_insert rest j r) l.
Proof.
  unfold Arr.splice_remove, Arr.splice_insert. intros H.
  apply (f_equal fst) in H as Hrest. apply (f_equal snd) in H as Hr.
  cbn [fst snd] in Hrest, Hr.
  apply Permutation_trans with (r :: rest); [apply insert_at_perm|].
  rewrite <- Hrest. now apply remove_at_perm.
Qed.

Lemma mapi_from_nth {A B : Type} (f : nat -> A -> B) (k : nat) (l : list A) (i : nat) :
  nth_error (Arr.mapi_from f k l) i = option_map (f (k + i)%nat) (nth_error l i).
Proof.
  revert k i. induction l as [|x l IH]; intros k [|i]; simpl; try reflexivity.
  - now rewrite Nat.add_0_r.
  - rewrite IH. now rewrite Nat.add_succ_r.
Qed.

Lemma mapi_nth {A B : Type} (f : nat -> A -> B) (l : list A) (i : nat) :
  nth_error (Arr.mapi f l) i = option_map (f i) (nth_error l i).
Proof. unfold Arr.mapi. now rewrite mapi_from_nth. Qed.

Lemma mapi_from_same {A : Type} (f : nat -> A -> A) (k : nat) (l : list A) :
  (forall i x, f i x = x) -> Arr.mapi_from f k l = l.
Proof.
  intros Hf. revert k. induction l as [|x l IH]; intros k; simpl; [reflexivity|].
  now rewrite Hf, IH.
Qed.

(** After the writes every holder reads its record through [see]. *)
Lemma held_afterWrites (sm : StateManager) (see : Holder -> Task -> Task) (h : Holder) :
  held (afterWrites sm see) h = option_map (see h) (held sm h).
Proof.
  destruct h as [|entry|entry k|entry k|entry]; cbn [held afterWrites state history];
    try reflexivity; rewrite mapi_nth;
    destruct (nth_error (history sm) entry) as [e|]; cbn; try reflexivity.
  - now destruct (action e).
  - apply (mapi_nth (fun k0 => see (SnapshotTask entry k0))).
  - apply (mapi_nth (fun k0 => see (SnapshotView entry k0))).
Qed.

(** A [setState] of the tasks alone leaves every holder as it is. *)
Lemma held_tasksOnly (sm : StateManager) (l : list Task) (h : Holder) :
  held (setState lc sm (tasksOnly l) None) h = held sm h.
Proof.
  destruct h; reflexivity.
Qed.

Lemma renumber_nth (l : list Task) (k : Z) (stamp : Timestamp) (i : nat) :
  nth_error (renumber l k stamp) i
  = option_map (fun t => written t (k + Z.of_nat i) stamp) (nth_error l i).
Proof.
  revert k i. induction l as [|t l IH]; intros k [|i]; simpl nth_error;
    try reflexivity.
  - cbn [option_map]. unfold written. now rewrite Z.add_0_r.
  - rewrite IH. destruct (nth_error l i); cbn [option_map]; [|reflexivity].
    do 2 f_equal. lia.
Qed.

(** The two [splice] calls look at positions only. *)
Lemma moveTo_map {A B : Type} (f : A -> B) (l : list A) (d j : Z) :
  moveTo (map f l) d j = map f (moveTo l d j).
Proof.
  unfold moveTo, Arr.splice_remove, Arr.splice_insert, Arr.relativeStart.
  rewrite nth_error_map, !length_map, !firstn_map, !skipn_map, <- !map_app.
  destruct (nth_error l _) as [r|]; cbn [option_map]; [|reflexivity].
  now rewrite !length_map, !firstn_map, !skipn_map, <- map_cons, <- map_app.
Qed.

Lemma moveTo_perm {A : Type} (l : list A) (d j : Z) : Permutation (moveTo l d j) l.
Proof.
  unfold moveTo. destruct (Arr.splice_remove l d) as [rest [r|]] eqn:E.
  - now apply (splice_perm _ _ _ _ _ E).
  - unfold Arr.splice_remove in E.
    apply (f_equal fst) in E as Hrest. apply (f_equal snd) in E as Hr.
    cbn [fst snd] in Hrest, Hr. apply nth_error_None in Hr. rewrite <- Hrest.
    rewrite firstn_all2 by lia. rewrite skipn_all2 by lia.
    now rewrite app_nil_r.
Qed.

Lemma seq_nth_all {A : Type} (l : list A) :
  map (nth_error l) (seq 0 (List.length l)) = map Some l.
Proof.
  induction l as [|x l IH]; [reflexivity|].
  cbn [List.length seq map nth_error]. f_equal.
  rewrite <- seq_shift, map_map. exact IH.
Qed.

Lemma findIndex_In (p : nat) (places : list nat) :
  In p places ->
  exists index, Arr.findIndex (Nat.eqb p) places = Some index /\
                nth_error places index = Some p.
Proof.
  intros Hin. destruct (Arr.findIndex (Nat.eqb p) places) as [index|] eqn:E.
  - exists index. split; [reflexivity|].
    destruct (ArrFacts.findIndex_Some _ _ _ E) as [x [Hx Hp]].
    apply Nat.eqb_eq in Hp. now subst x.
  - apply ArrFacts.findIndex_None in E.
    assert (existsb (Nat.eqb p) places = true) as Hex.
    { apply existsb_exists. exists p. split; [exact Hin | apply Nat.eqb_refl]. }
    congruence.
Qed.

(** Where the object of index [p] of the collection stands after the two
    [splice] calls, and what it reads there after the renumbering. *)
Lemma object_after (l : list Task) (d j : Z) (stamp : Timestamp) (p : nat) (live : Task) :
  nth_error l p = Some live ->
  exists index,
    Arr.findIndex (Nat.eqb p) (moveTo (seq 0 (List.length l)) d j) = Some index /\
    nth_error (renumber (moveTo l d j) 0 stamp) index
    = Some (written live (Z.of_nat index) stamp).
Proof.
  intros Hp.
  assert (Hin : In p (moveTo (seq 0 (List.length l)) d j)).
  { apply (Permutation_in p (Permutation_sym (moveTo_perm _ d j))).
    apply in_seq. split; [lia|]. simpl. apply nth_error_Some. congruence. }
  destruct (findIndex_In p _ Hin) as [index [Hf Hn]].
  exists index. split; [exact Hf|].
  assert (Hm : map (nth_error l) (moveTo (seq 0 (List.length l)) d j)
               = map Some (moveTo l d j)).
  { now rewrite <- moveTo_map, seq_nth_all, moveTo_map. }
  apply (f_equal (fun x => nth_error x index)) in Hm.
  rewrite !nth_error_map, Hn in Hm. cbn [option_map] in Hm.
  rewrite renumber_nth.
  destruct (nth_error (moveTo l d j) index) as [t|]; cbn [option_map] in *;
    [|discriminate].
  injection Hm as Hm. rewrite Hp in Hm. injection Hm as ->. reflexivity.
Qed.

(** X26. A drop that goes through loses and repeats no task: the ids
    of the new sequence are a rearrangement of the old ones; the [order]
    fields are 0, 1, ..., n-1 along the new sequence and every task
    carries the clock reading; the view is recomputed.  No entry is
    recorded: the log keeps its length and the counter its place, so a
    reorder cannot be undone.  The writes go into the task objects, so
    they show in the log where it holds an object of the collection: a
    holder of the object that stood at index [p] reads, after the drop,
    the [order] and the [updatedAt] that this object has in the new
    collection; a holder of any other object reads what it read before;
    and a log that holds no object of the collection is as before. *)
Theorem reorder_keeps_collection (sm sm' : StateManager) (env : Env)
    (shared : Sharing) (draggedTask targetTask : Task) (insertAfter : bool) :
  reorderTasks lc sm env shared draggedTask targetTask insertAfter
  = (sm', Returned tt) ->
  Permutation (map id (tasks (state sm'))) (map id (tasks (state sm))) /\
  map order (tasks (state sm'))
  = map Z.of_nat (seq 0 (List.length (tasks (state sm)))) /\
  Forall (fun t => updatedAt t = now env) (tasks (state sm')) /\
  filteredTasks (state sm') = projection lc (state sm') /\
  List.length (history sm') = List.length (history sm) /\
  historyIndex sm' = historyIndex sm /\
  (forall h task p live,
     held sm h = Some task ->
     shared h = Some p ->
     nth_error (tasks (state sm)) p = Some live ->
     exists index,
       held sm' h = Some (written task (Z.of_nat index) (now env)) /\
       nth_error (tasks (state sm')) index
       = Some (written live (Z.of_nat index) (now env))) /\
  (forall h task,
     held sm h = Some task -> shared h = None -> held sm' h = Some task) /\
  ((forall h, shared h = None) -> logOf sm' = logOf sm).
Proof.
  intros H.
  pose proof (reorderTasks_renumbers lc sm sm' env shared _ _ _ H) as [Ho Hs].
  unfold reorderTasks in H.
  set (d := Arr.indexNumber
              (Arr.findIndex (fun t => String.eqb (id t) (id draggedTask))
                             (tasks (state sm)))) in *.
  set (j := if insertAfter
            then Arr.indexNumber
                   (Arr.findIndex (fun t => String.eqb (id t) (id targetTask))
                                  (tasks (state sm)))
            else Arr.indexNumber
                   (Arr.findIndex (fun t => String.eqb (id t) (id targetTask))
                                  (tasks (state sm)))) in *.
  destruct (Arr.splice_remove (tasks (state sm)) d) as [rest [removed|]] eqn:E;
    [|discriminate].
  assert (Hmoved : Arr.splice_insert rest j removed = moveTo (tasks (state sm)) d j).
  { unfold moveTo. now rewrite E. }
  cbv zeta in H. rewrite Hmoved in H.
  set (places := moveTo (seq 0 (List.length (tasks (state sm)))) d j) in *.
  set (see := seen shared places (now env)) in *.
  injection H as <-.
  pose proof (moveTo_perm (tasks (state sm)) d j) as HP.
  assert (Hh : history (setState lc (afterWrites sm see)
                          (tasksOnly (renumber (moveTo (tasks (state sm)) d j) 0
                                               (now env)))
                          None)
               = history (afterWrites sm see)) by reflexivity.
  assert (Hi : historyIndex (setState lc (afterWrites sm see)
                               (tasksOnly (renumber (moveTo (tasks (state sm)) d j) 0
                                                    (now env)))
                               None)
               = historyIndex sm) by reflexivity.
  split.
  { rewrite tasks_after, renumber_same_ids. now apply Permutation_map. }
  split.
  { rewrite Ho. rewrite tasks_after, renumber_length.
    now rewrite (Permutation_length HP). }
  split; [exact Hs|].
  split; [apply setState_tasks_fresh|].
  split.
  { rewrite Hh. unfold afterWrites, Arr.mapi. cbn [history].
    apply mapi_from_length. }
  split; [exact Hi|].
  split.
  { intros h task p live Hheld Hshared Hlive.
    destruct (object_after (tasks (state sm)) d j (now env) p live Hlive)
      as [index [Hf Hn]].
    exists index. split.
    - rewrite held_tasksOnly, held_afterWrites, Hheld. cbn [option_map].
      unfold see, seen, places. now rewrite Hshared, Hf.
    - now rewrite tasks_after. }
  split.
  { intros h task Hheld Hshared.
    rewrite held_tasksOnly, held_afterWrites, Hheld. cbn [option_map].
    unfold see, seen. now rewrite Hshared. }
  intros Hnone. unfold logOf. rewrite Hh, Hi.
  unfold afterWrites, Arr.mapi. cbn [history historyIndex]. f_equal.
  apply mapi_from_same. intros i [s a].
  assert (Hsee : forall h t, see h t = t).
  { intros h t. unfold see, seen. now rewrite Hnone. }
  unfold seenEntry, seenState, seenAction. cbn [prevState action].
  f_equal.
  - destruct s as [ts fs sel cf cs q tf th il ed]. cbn.
    unfold Arr.mapi. rewrite !mapi_from_same by (intros; apply Hsee).
    f_equal. destruct ed; cbn; [now rewrite Hsee | reflexivity].
  - destruct a; try reflexivity. now rewrite Hsee.
Qed.

End Reorder.

(* ------------------------------------------------------------------ *)
(** ** The theorems at concrete states *)

Module Examples.

Import Sample.

(** Eleven recorded deletions on a fresh state manager: ten entries are
    left and the eleventh undo finds nothing. *)
Lemma history_bound_example :
  List.length (history (recordAll codeUnitCompare newStateManager elevenSteps)) = 10%nat /\
  map action (history (recordAll codeUnitCompare newStateManager elevenSteps))
  = map DELETE_TASK (tl ghosts).
Proof.
  destruct (history_bound codeUnitCompare newStateManager elevenSteps)
    as [_ [_ [_ [_ [_ [HL [HM _]]]]]]].
  - reflexivity.
  - reflexivity.
  - unfold elevenSteps, ghosts. simpl. repeat constructor.
  - reflexivity.
  - split; [exact HL | exact HM].
Defined.


Lemma missing_id_example :
  updateTask codeUnitCompare oneTask (at_ "" 200) "ghost" noUpdates true
  = (oneTask, Returned None).
Proof.
  apply (missing_id_is_noop codeUnitCompare oneTask (at_ "" 200) "ghost" noUpdates true).
  simpl. intros [H|[]]. discriminate H.
Defined.

(** Retitling task b of two: the update has no [id] and no [createdAt]
    key, and the task keeps both. *)
Lemma updateTask_frame_example :
  exists i old updated,
    nth_error (tasks (state twoTasks)) i = Some old /\
    snd (updateTask codeUnitCompare twoTasks (at_ "" 400) "b" retitle true)
    = Returned (Some updated) /\
    id old = "b" /\
    id updated = id old /\
    createdAt updated = createdAt old /\
    updatedAt updated = 400 /\
    title updated = "oat milk".
Proof.
  destruct (updateTask_frame codeUnitCompare twoTasks (at_ "" 400) "b" retitle true)
    as [i [old [_ [Hn [Hid [Hr [_ [_ [_ [Hi [Hc [Hu [_ [_ [Ht _]]]]]]]]]]]]]]].
  - simpl. right. left. reflexivity.
  - exists i, old, (applyUpdates old retitle (now (at_ "" 400))).
    split; [exact Hn|]. split; [exact Hr|]. split; [exact Hid|].
    split; [apply Hi; reflexivity|]. split; [apply Hc; reflexivity|].
    split; [exact Hu|]. exact Ht.
Defined.

Lemma deleteTask_absent_example :
  tasks (state (fst (deleteTask codeUnitCompare oneTask "ghost" true)))
  = tasks (state oneTask).
Proof.
  destruct (deleteTask_absent_recorded codeUnitCompare oneTask "ghost") as [H _].
  - unfold historyInRange. simpl. lia.
  - simpl. intros [H|[]]. discriminate H.
  - exact H.
Defined.

Lemma undo_redo_replay_example :
  observable (state (fst (redo codeUnitCompare
                            (fst (undo codeUnitCompare
                                    (exec oneTask (at_ "" 200) (ToggleComplete "a"))))
                            (at_ "" 300))))
  = observable (state (exec oneTask (at_ "" 300) (ToggleComplete "a"))).
Proof.
  destruct (undo_redo_replay codeUnitCompare oneTask (at_ "" 200) (at_ "" 300)
              (ToggleComplete "a")) as [_ [_ [_ [_ H]]]].
  - unfold historyInRange. simpl. lia.
  - reflexivity.
  - apply H. reflexivity.
Defined.

Lemma import_merge_example :
  Storage.importData [localA] [newerA; importedB] = [newerA; importedB].
Proof.
  rewrite (import_merge [localA] [newerA; importedB]).
  - reflexivity.
  - simpl. repeat constructor. simpl. tauto.
  - simpl. repeat constructor; simpl; intuition discriminate.
Defined.

Lemma search_filter_example :
  map id (searchFilter "MILK" (tasks (state twoTasks))) = ["a"].
Proof.
  destruct (search_filter_spec "MILK" (tasks (state twoTasks))) as [_ H].
  destruct H as [H _].
  - vm_compute. discriminate.
  - rewrite H. reflexivity.
Defined.

(** C1 at a later clock reading.  Toggle at time 200, undo, redo at
    time 300: the replay stamps the task with 300, so the tasks after the
    redo are not those the toggle had produced. *)
Lemma redo_restamps :
  ~ roundTrips codeUnitCompare oneTask (at_ "" 200) (ToggleComplete "a") (at_ "" 300).
Proof.
  intros [_ [_ H]]. vm_compute in H. discriminate H.
Qed.

(** [executeAction] has no case for [CLEAR_COMPLETED]: the redo reports
    success and the completed task is still there. *)
Lemma redo_skips_clearCompleted :
  let done := exec oneTask (at_ "" 200) (ToggleComplete "a") in
  let cleared := exec done (at_ "" 250) ClearCompleted in
  let redone := redo codeUnitCompare (fst (undo codeUnitCompare cleared)) (at_ "" 250) in
  map id (tasks (state cleared)) = [] /\
  snd redone = Returned true /\
  map id (tasks (state (fst redone))) = ["a"].
Proof. vm_compute. auto. Qed.

(** After a delete and its undo the selection is a plain object, and
    the redo of the delete raises once the tasks are updated. *)
Lemma redo_of_delete_throws :
  let deleted := exec oneTask (at_ "" 200) (DeleteTask "a") in
  let redone := redo codeUnitCompare (fst (undo codeUnitCompare deleted)) (at_ "" 300) in
  snd redone = Thrown /\ tasks (state (fst redone)) = [].
Proof. vm_compute. auto. Qed.

(** C4 at the failing input.  Two tasks under the sort key [created]
    are shown newest first; the sort selector then calls [setState] with
    [currentSort] alone: the key changes to [manual], the view keeps the
    old order, and the projection of the new state is the other order. *)
Lemma sort_change_leaves_stale_view :
  let sm' := setState codeUnitCompare twoTasks (sortOnly manual) None in
  currentSort (state sm') = manual /\
  map id (filteredTasks (state sm')) = ["b"; "a"] /\
  map id (projection codeUnitCompare (state sm')) = ["a"; "b"] /\
  filteredTasks (state sm') <> projection codeUnitCompare (state sm').
Proof.
  vm_compute. repeat split. discriminate.
Qed.

(** C5 at a tie.  A local and an imported task with the same id and the
    same [updatedAt]: the local one is not later, and still it is the one
    kept. *)
Lemma import_tie_keeps_local :
  id importedA = id localA /\
  ~ (updatedAt localA > updatedAt importedA) /\
  Storage.importData [localA] [importedA] = [localA] /\
  ~ In importedA (Storage.importData [localA] [importedA]).
Proof.
  vm_compute. repeat split; try discriminate.
  intros [H|[]]. discriminate H.
Qed.

(** C6 with a trailing blank.  The trimmed query occurs in the title,
    and the task is filtered out all the same, because the query is
    matched as typed. *)
Lemma search_query_not_trimmed :
  title (taskWithId oneTask "a") = "milk" /\
  isSubstring (Str.toLowerCase (Str.trim "milk ")) (Str.toLowerCase "milk") /\
  searchFilter "milk " (tasks (state oneTask)) = [].
Proof.
  split; [reflexivity|]. split; [|reflexivity].
  exists "", "". reflexivity.
Qed.

(** C7 at the failing input.  Dropping task c on task a with
    [insertAfter = true] puts c in front of a; dropping a on c with
    [insertAfter = false] puts a behind c. *)
Lemma reorder_misplaces_dragged_task :
  map id (tasks (state (fst (reorderTasks codeUnitCompare threeTasks (at_ "" 400)
                               (addedObjects 3)
                               (taskWithId threeTasks "c") (taskWithId threeTasks "a")
                               true))))
  = ["c"; "a"; "b"] /\
  map id (tasks (state (fst (reorderTasks codeUnitCompare threeTasks (at_ "" 400)
                               (addedObjects 3)
                               (taskWithId threeTasks "a") (taskWithId threeTasks "c")
                               false))))
  = ["b"; "c"; "a"].
Proof. vm_compute. auto. Qed.

(** C9 with an [id] and a [createdAt] key.  An update of task a that
    carries both: the task at that position then has another id and
    another creation time, and no task has the id "a" any more. *)
Lemma update_with_id_key_renames :
  let r := updateTask codeUnitCompare oneTask (at_ "" 200) "a" rekey true in
  map id (tasks (state oneTask)) = ["a"] /\
  map createdAt (tasks (state oneTask)) = [100] /\
  map id (tasks (state (fst r))) = ["z"] /\
  map createdAt (tasks (state (fst r))) = [7] /\
  ~ In "a" (map id (tasks (state (fst r)))).
Proof.
  vm_compute. repeat split.
  intros [H|[]]. discriminate H.
Qed.

(** C10 with a full log.  Ten entries, the counter on the last one: the
    delete of an absent id is recorded, the oldest entry goes, and the
    counter is where it was. *)
Lemma delete_absent_keeps_counter_when_full :
  ~ In "ghost" (map id (tasks (state fullHistory))) /\
  List.length (history fullHistory) = 10%nat /\
  historyIndex fullHistory = 9 /\
  historyIndex (fst (deleteTask codeUnitCompare fullHistory "ghost" true)) = 9 /\
  historyIndex (fst (deleteTask codeUnitCompare fullHistory "ghost" true))
  <> historyIndex fullHistory + 1.
Proof.
  vm_compute. repeat split; try discriminate.
  intros [H|[]]. discriminate H.
Qed.

End Examples.

(* ------------------------------------------------------------------ *)
(** ** Further theorems at concrete states *)

Module MoreExamples.

Import Sample MoreSample.

Lemma codeUnit_total (x y : string) :
  codeUnitCompare x y > 0 -> codeUnitCompare y x <= 0.
Proof.
  unfold codeUnitCompare. rewrite (String.compare_antisym y x).
  destruct (String.compare x y); simpl; lia.
Qed.

Lemma codeUnit_le (x y : string) :
  codeUnitCompare x y <= 0 <-> String.compare x y <> Gt.
Proof.
  unfold codeUnitCompare. destruct (String.compare x y); split; intros H;
    try congruence; try lia.
Qed.

Lemma codeUnit_trans (x y z : string) :
  codeUnitCompare x y <= 0 -> codeUnitCompare y z <= 0 -> codeUnitCompare x z <= 0.
Proof.
  rewrite !codeUnit_le. apply TagFacts.compare_le_trans.
Qed.

Lemma view_in_sort_order_example :
  StronglySorted (shownBefore codeUnitCompare byTitle)
                 (projection codeUnitCompare byTitleState).
Proof.
  apply (view_in_sort_order codeUnitCompare byTitleState).
  - intros _. exact codeUnit_total.
  - intros _. exact codeUnit_trans.
Defined.

Lemma record_pushes_example :
  List.length (undoable (exec oneTask (at_ "b" 200) (AddTask (draft "bread")))) = 2%nat.
Proof.
  unfold exec.
  rewrite (record_pushes codeUnitCompare oneTask (at_ "b" 200) (AddTask (draft "bread"))).
  - reflexivity.
  - unfold logInvariant, historyInRange, historySize. simpl. lia.
  - reflexivity.
Defined.

Lemma undo_pops_example :
  undoable (fst (undo codeUnitCompare oneTask)) = [].
Proof.
  destruct (undo_pops codeUnitCompare oneTask) as [_ H].
  - unfold historyInRange. simpl. lia.
  - destruct (H [] (mkEntry (deepClone (state newStateManager))
                            (descriptor newStateManager (at_ "a" 100)
                                        (AddTask (draft "milk")))))
      as [_ [_ [Hu _]]]; [reflexivity | exact Hu].
Defined.

Lemma undo_then_redo_log_example :
  logOf (fst (redo codeUnitCompare (fst (undo codeUnitCompare twoTasks)) (at_ "c" 300)))
  = logOf twoTasks.
Proof.
  destruct (undo_then_redo_log codeUnitCompare twoTasks (at_ "c" 300)) as [H _].
  - unfold historyInRange. simpl. lia.
  - simpl. lia.
  - exact H.
Defined.

Lemma parseTags_clean_example : Str.trim "home" = "home".
Proof.
  destruct (parseTags_clean "work, home ,,x" "home") as [_ [H _]].
  - vm_compute. right. left. reflexivity.
  - exact H.
Defined.

Lemma daysUntilTarget_example : (5 + UI.daysUntilTarget 1 5) mod 7 = 1.
Proof.
  destruct (daysUntilTarget_spec 1 5) as [_ [H _]].
  - lia.
  - lia.
  - exact H.
Defined.

Lemma tag_filter_narrows_example :
  In (taskWithId oneTask "a")
     (filteredTasks (state (UI.removeTagFilter codeUnitCompare oneTask "home"))).
Proof.
  destruct (tag_filter_narrows codeUnitCompare oneTask "home" (taskWithId oneTask "a"))
    as [_ H].
  - reflexivity.
  - apply H. simpl. left. reflexivity.
Defined.

Lemma limitCacheSize_example :
  ServiceWorker.limitCacheSize threeKeys 2 = ["k2"; "k3"].
Proof.
  destruct (limitCacheSize_bound threeKeys 2) as [_ [_ H]].
  - lia.
  - rewrite H; [reflexivity|].
    unfold threeKeys. repeat constructor; simpl; intuition discriminate.
Defined.

Lemma import_twice_example :
  Storage.importData (Storage.importData [localA] [newerA; importedB]) [newerA; importedB]
  = Storage.importData [localA] [newerA; importedB].
Proof.
  destruct (import_twice [localA] [newerA; importedB]) as [H _].
  - simpl. repeat constructor. simpl. tauto.
  - simpl. repeat constructor; simpl; intuition discriminate.
  - exact H.
Defined.

Lemma toggle_twice_example :
  exists i old,
    nth_error (tasks (state oneTask)) i = Some old /\
    tasks (state (fst (toggleTaskComplete codeUnitCompare
                         (fst (toggleTaskComplete codeUnitCompare oneTask
                                 (at_ "" 200) "a" true))
                         (at_ "" 300) "a" true)))
    = Arr.assign (tasks (state oneTask)) i (applyUpdates old noUpdates 300).
Proof.
  destruct (toggle_twice codeUnitCompare oneTask (at_ "" 200) (at_ "" 300) "a")
    as [i [old [_ [Hn [H _]]]]].
  - simpl. left. reflexivity.
  - exists i, old. split; [exact Hn | exact H].
Defined.

(** Three tasks added by three recorded calls; task c is dropped on task
    a.  The descriptor of the second entry holds task b, which now stands
    last: it reads [order] 2 and the time of the drop. *)
Lemma reorder_keeps_collection_example :
  let sm' := fst (reorderTasks codeUnitCompare threeTasks (at_ "" 400)
                    (addedObjects 3)
                    (taskWithId threeTasks "c") (taskWithId threeTasks "a") true) in
  map order (tasks (state sm')) = [0; 1; 2] /\
  List.length (history sm') = 3%nat /\
  historyIndex sm' = 2 /\
  exists index,
    held sm' (Descriptor 1)
    = Some (written (taskWithId threeTasks "b") (Z.of_nat index) 400).
Proof.
  destruct (reorder_keeps_collection codeUnitCompare threeTasks
              (fst (reorderTasks codeUnitCompare threeTasks (at_ "" 400)
                      (addedObjects 3)
                      (taskWithId threeTasks "c") (taskWithId threeTasks "a") true))
              (at_ "" 400) (addedObjects 3)
              (taskWithId threeTasks "c") (taskWithId threeTasks "a") true)
    as [_ [Ho [_ [_ [Hl [Hi [Hw _]]]]]]].
  - reflexivity.
  - cbv zeta. split; [rewrite Ho; reflexivity|].
    split; [rewrite Hl; reflexivity|]. split; [rewrite Hi; reflexivity|].
    destruct (Hw (Descriptor 1) (taskWithId threeTasks "b") 1%nat
                 (taskWithId threeTasks "b"))
      as [index [Hd _]]; try reflexivity.
    exists index. exact Hd.
Defined.

(** The drop above, then two undos and one redo: the redo adds task b
    again from its descriptor, and the new task has the [order] that the
    drop wrote, not the 1 it was added with. *)
Lemma reorder_reaches_descriptor :
  let dropped := fst (reorderTasks codeUnitCompare threeTasks (at_ "" 400)
                        (addedObjects 3)
                        (taskWithId threeTasks "c") (taskWithId threeTasks "a") true) in
  let back := fst (undo codeUnitCompare (fst (undo codeUnitCompare dropped))) in
  let again := fst (redo codeUnitCompare back (at_ "b2" 500)) in
  map order (tasks (state twoTasks)) = [0; 1] /\
  map order (tasks (state again)) = [0; 2].
Proof. vm_compute. auto. Qed.

(** Three tasks, an undo, and a drop of task b on task a.  After the
    undo the collection is the array of the snapshot of the third entry,
    so the writes of the drop are in that snapshot: a redo followed by an
    undo brings back tasks a and b in the order they had, with the
    [order] fields and the stamps of the drop, where the state before c
    was added had [order] 0 and 1 and the stamps 100 and 200. *)
Lemma reorder_reaches_snapshot :
  let undone := fst (undo codeUnitCompare threeTasks) in
  let dropped := fst (reorderTasks codeUnitCompare undone (at_ "" 400)
                        (restoredObjects 2)
                        (taskWithId undone "b") (taskWithId undone "a") false) in
  let again := fst (undo codeUnitCompare
                      (fst (redo codeUnitCompare dropped (at_ "c2" 500)))) in
  map id (tasks (state twoTasks)) = ["a"; "b"] /\
  map order (tasks (state twoTasks)) = [0; 1] /\
  map updatedAt (tasks (state twoTasks)) = [100; 200] /\
  map id (tasks (state dropped)) = ["b"; "a"] /\
  map id (tasks (state again)) = ["a"; "b"] /\
  map order (tasks (state again)) = [1; 0] /\
  map updatedAt (tasks (state again)) = [400; 400].
Proof. vm_compute. repeat split. Qed.

End MoreExamples.
